(** * Ranking metrics of the NCF evaluation loop

    A shallow embedding of [evaluate_model] from
    [official/recommendation/ncf_main.py] and of the few NumPy operations it
    is built from, followed by the properties of the Hit Ratio and NDCG it
    returns.

    Conventions of the model.
    - A predicted score is a rational number: every finite float is one, and
      the only thing the evaluator does with scores is compare them. NaN
      and infinite scores are left out.
    - [np.argsort] gives an ascending order of each row. [evaluate_model]
      takes the stable one; the results that depend on the order of equal
      scores are proved for every ascending order, and NumPy's default
      sort is modelled in [npysort].
    - The two metrics are real numbers: the float division and [np.log] are
      read as the exact real operations.
    - A Python exception is a value of [error]; a computation that may raise
      has type [result A]. *)

From Stdlib Require Import List Bool Arith ZArith QArith Reals Lia Lra.
From Stdlib Require Import Permutation Sorted.
Import ListNotations.

Set Implicit Arguments.

(** ** Exceptions *)

Inductive error : Type :=
| ConcatenateEmpty      (* ValueError: need at least one array to concatenate *)
| ReshapeTwoUnknown     (* ValueError: can only specify one unknown dimension *)
| ReshapeSizeMismatch.  (* ValueError: cannot reshape array of size n into shape s *)

Inductive result (A : Type) : Type :=
| Raise (e : error)
| Return (a : A).

Arguments Raise {A} e.
Arguments Return {A} a.

Definition bind {A B : Type} (c : result A) (k : A -> result B) : result B :=
  match c with
  | Raise e => Raise e
  | Return a => k a
  end.

Notation "x <- c ;; k" := (bind c (fun x => k))
  (at level 61, c at next level, right associativity).

(** ** The NumPy operations used by the evaluator *)

Module np.

Definition score := Q.

(** Strict comparison of two scores, as a boolean. *)
Definition ltb (x y : score) : bool := negb (Qle_bool y x).

(** [np.concatenate(arrays, axis=0)] on one-dimensional arrays. An empty
    sequence of arrays is refused. *)
Definition concatenate (arrays : list (list score)) : result (list score) :=
  match arrays with
  | [] => Raise ConcatenateEmpty
  | _ :: _ => Return (concat arrays)
  end.

(** Cut a flat array into [n] consecutive rows of width [w]. *)
Fixpoint rows_of (n w : nat) (a : list score) : list (list score) :=
  match n with
  | O => []
  | S n' => firstn w a :: rows_of n' w (skipn w a)
  end.

(** [a.reshape(n, -1)]. A negative [n] is a second unknown dimension; the
    unknown width is [len a / n], which must be exact, and cannot be
    inferred when [n] is zero. *)
Definition reshape (a : list score) (n : Z) : result (list (list score)) :=
  let size := Z.of_nat (length a) in
  if (n <? 0)%Z then Raise ReshapeTwoUnknown
  else if (n =? 0)%Z || negb (size mod n =? 0)%Z then Raise ReshapeSizeMismatch
  else Return (rows_of (Z.to_nat n) (Z.to_nat (size / n)) a).

(** One step of the insertion sort on (column, score) pairs: the new pair
    moves left past every pair whose score is strictly larger. *)
Fixpoint insert (p : nat * score) (sorted : list (nat * score))
  : list (nat * score) :=
  match sorted with
  | [] => [p]
  | q :: rest =>
      if ltb (snd p) (snd q) then p :: q :: rest else q :: insert p rest
  end.

Definition isort (l : list (nat * score)) : list (nat * score) :=
  fold_left (fun sorted p => insert p sorted) l [].

(** Each column of a row paired with its index. *)
Definition enumerate (row : list score) : list (nat * score) :=
  combine (seq 0 (length row)) row.

(** [np.argsort] of one row: the column indices in ascending score order.
    The sort is the insertion sort, which keeps columns of equal score in
    ascending index order. NumPy's default kind is this sort on rows of at
    most 17 columns; a wider row it partitions first, and equal scores can
    change places ([npysort.aquicksort]). What does not depend on the
    order of equal scores is stated for this sort; what does is stated
    for every sort ([evaluate_model_with]). *)
Definition argsort_row (row : list score) : list nat :=
  map fst (isort (enumerate row)).

(** [np.argsort(m, axis=1)]. *)
Definition argsort (m : list (list score)) : list (list nat) :=
  map argsort_row m.

(** The slice [row[-k:]]: the last [k] entries, or all of them when the
    row has fewer. *)
Definition take_last {A : Type} (k : nat) (row : list A) : list A :=
  skipn (length row - k) row.

(** [m[:, -k:]]. *)
Definition slice_last {A : Type} (k : nat) (m : list (list A))
  : list (list A) :=
  map (take_last k) m.

(** [np.flip(m, axis=1)]. *)
Definition flip {A : Type} (m : list (list A)) : list (list A) :=
  map (@rev A) m.

(** [np.equal(m, x)] for a matrix of indices and a scalar. *)
Definition equal (m : list (list nat)) (x : nat) : list (list bool) :=
  map (map (fun y => Nat.eqb y x)) m.

(** The positions of the true entries of row [i], starting at column [j]. *)
Fixpoint argwhere_row (i j : nat) (row : list bool) : list (nat * nat) :=
  match row with
  | [] => []
  | b :: rest =>
      if b then (i, j) :: argwhere_row i (S j) rest
      else argwhere_row i (S j) rest
  end.

Fixpoint argwhere_from (i : nat) (m : list (list bool)) : list (nat * nat) :=
  match m with
  | [] => []
  | row :: rest => argwhere_row i 0 row ++ argwhere_from (S i) rest
  end.

(** [np.argwhere(m)]: the (row, column) positions of the true entries, in
    row-major order. *)
Definition argwhere (m : list (list bool)) : list (nat * nat) :=
  argwhere_from 0 m.

(** [np.sum] of a one-dimensional array of reals. *)
Definition sum (xs : list R) : R := fold_right Rplus 0%R xs.

(** [np.log]. *)
Definition log (x : R) : R := ln x.

End np.

(** ** ncf_main.py *)

Definition _TOP_K : nat := 10.

Record eval_results : Type := {
  HR : R;
  NDCG : R;
  GLOBAL_STEP : Z
}.

(** The top-K ranking matrix: [np.argsort] per row, the last [_TOP_K]
    columns of it, flipped. *)
Definition top_indicies_of (predicted_scores_by_user : list (list np.score))
  : list (list nat) :=
  let top_indicies :=
    np.slice_last _TOP_K (np.argsort predicted_scores_by_user) in
  np.flip top_indicies.

(** [np.log(2) / np.log(hit_indicies[:, 1] + 2)], one entry per hit. *)
Definition gains (hit_indicies : list (nat * nat)) : list R :=
  map (fun hit => (np.log 2 / np.log (INR (snd hit) + 2))%R) hit_indicies.

(** [evaluate_model]. [prediction_batches] is what the estimator's
    [predict] yields, [num_users] is [ncf_dataset.num_users] and
    [global_step] the step the estimator reports. *)
Definition evaluate_model (prediction_batches : list (list np.score))
  (num_users : Z) (global_step : Z) : result eval_results :=
  flat <- np.concatenate prediction_batches ;;
  predicted_scores_by_user <- np.reshape flat num_users ;;
  let top_indicies := top_indicies_of predicted_scores_by_user in
  let hit_indicies := np.argwhere (np.equal top_indicies 0) in
  let hr := (INR (length hit_indicies) / IZR num_users)%R in
  let ndcg := (np.sum (gains hit_indicies) / IZR num_users)%R in
  Return {| HR := hr; NDCG := ndcg; GLOBAL_STEP := global_step |}.

(** The part of [evaluate_model] that is decidable by computation: the
    ranking matrix and the hit positions the two metrics are read from. *)
Definition hit_indicies_of (prediction_batches : list (list np.score))
  (num_users : Z) : result (list (nat * nat)) :=
  flat <- np.concatenate prediction_batches ;;
  predicted_scores_by_user <- np.reshape flat num_users ;;
  Return (np.argwhere (np.equal (top_indicies_of predicted_scores_by_user) 0)).


(** ** Score matrices, rankings and what a row contributes *)

(** [m] has [n] rows of [w] columns each. *)
Definition matrix (n w : nat) (m : list (list np.score)) : Prop :=
  length m = n /\ Forall (fun row => length row = w) m.

(** A score matrix: one row per user, at least one user, and in every row
    the score of the true item in column 0, followed by the scores of the
    sampled negatives. *)
Definition score_matrix (n w : nat) (m : list (list np.score)) : Prop :=
  (1 <= n)%nat /\ (1 <= w)%nat /\ matrix n w m.

(** The prediction batches hold the matrix [m], row after row. *)
Definition delivers (prediction_batches : list (list np.score))
  (m : list (list np.score)) : Prop :=
  concat prediction_batches = concat m.

(** The top-K ranking of one row, as the evaluator builds it. *)
Definition top_k_row (row : list np.score) : list nat :=
  rev (np.take_last _TOP_K (np.argsort_row row)).

(** The 0-based position of the first [x] in [l]. *)
Fixpoint find_index (x : nat) (l : list nat) : option nat :=
  match l with
  | [] => None
  | y :: rest =>
      if Nat.eqb y x then Some O else option_map S (find_index x rest)
  end.

(** The rank of the true item (column 0) in a row's top-K ranking. *)
Definition hit_rank (row : list np.score) : option nat :=
  find_index 0 (top_k_row row).

(** The number of rows whose top-K ranking contains column 0. *)
Definition hit_rows (m : list (list np.score)) : nat :=
  length (filter (fun row => existsb (fun c => Nat.eqb c 0) (top_k_row row)) m).

(** What one row adds to the NDCG numerator. *)
Definition row_gain (row : list np.score) : R :=
  match hit_rank row with
  | Some r => (ln 2 / ln (INR r + 2))%R
  | None => 0%R
  end.

(** What one row adds to the Hit Ratio numerator. *)
Definition row_hit (row : list np.score) : R :=
  match hit_rank row with
  | Some _ => 1%R
  | None => 0%R
  end.

Definition total (f : list np.score -> R) (m : list (list np.score)) : R :=
  fold_right Rplus 0%R (map f m).

(** The number of other columns of a row that score at least as much as
    column 0. *)
Definition rank0 (row : list np.score) : nat :=
  match row with
  | [] => O
  | v0 :: rest => length (filter (fun v => Qle_bool v0 v) rest)
  end.

(** One step of the sort, as the fold of [np.isort] takes it. *)
Definition sort_step (sorted : list (nat * np.score)) (p : nat * np.score)
  : list (nat * np.score) :=
  np.insert p sorted.

(** The pairs of [l] that score at least as much as [x]. *)
Definition at_least (x : nat * np.score) (l : list (nat * np.score))
  : list (nat * np.score) :=
  filter (fun p => negb (np.ltb (snd p) (snd x))) l.

(** A map on scores, lifted to (column, score) pairs. *)
Definition on_score (f : np.score -> np.score) (p : nat * np.score)
  : nat * np.score :=
  (fst p, f (snd p)).

(** The score a row gives to column [c]. *)
Definition score_at (row : list np.score) (c : nat) : np.score :=
  nth c row 0%Q.

(** Column [a] occurs in [l] at an earlier position than column [b]. *)
Definition precedes (l : list nat) (a b : nat) : Prop :=
  exists l1 l2 l3, l = l1 ++ a :: l2 ++ b :: l3.

(** The order the evaluator ranks the columns of a row in: a larger score
    first, and of two equal scores the larger column index first. *)
Definition ranked_before (row : list np.score) (c1 c2 : nat) : Prop :=
  (score_at row c2 < score_at row c1)%Q \/
  (score_at row c2 == score_at row c1 /\ (c2 < c1)%nat)%Q.

(** The order the specification asks for: a larger score first, and of two
    equal scores the smaller column index first. *)
Definition spec_ranked_before (row : list np.score) (c1 c2 : nat) : Prop :=
  (score_at row c2 < score_at row c1)%Q \/
  (score_at row c2 == score_at row c1 /\ (c1 < c2)%nat)%Q.

(** The ascending order of the sort on (column, score) pairs: a smaller
    score first, and of two equal scores the smaller column index first. *)
Definition pair_lt (p q : nat * np.score) : Prop :=
  (snd p < snd q)%Q \/ (snd p == snd q /\ (fst p < fst q)%nat)%Q.

(** Every score of a row multiplied by [c]. *)
Definition scale (c : np.score) (row : list np.score) : list np.score :=
  map (Qmult c) row.

(** The matrix [m] with row [r] scaled by [c]. *)
Fixpoint scale_row (r : nat) (c : np.score) (m : list (list np.score))
  {struct m} : list (list np.score) :=
  match m, r with
  | [], _ => []
  | row :: rest, O => scale c row :: rest
  | row :: rest, S r' => row :: scale_row r' c rest
  end.

(** [row'] is [row] with the columns after column 0 reordered, each
    keeping its score. *)
Definition negatives_permuted (row row' : list np.score) : Prop :=
  hd_error row = hd_error row' /\ Permutation (tl row) (tl row').

(** Column 0 holds the strictly highest score of the row. *)
Definition true_item_first (row : list np.score) : Prop :=
  match row with
  | [] => False
  | v0 :: rest => Forall (fun v => (v < v0)%Q) rest
  end.

(** What [np.argsort] promises of a row whatever the sort kind: the
    columns of the row, each once, in an order where the score never
    decreases. *)
Definition ascending_order (row : list np.score) (asc : list nat) : Prop :=
  Permutation asc (seq 0 (length row)) /\
  StronglySorted
    (fun c1 c2 => (score_at row c1 <= score_at row c2)%Q) asc.

(** No other column of the row scores the same as column 0. *)
Definition true_item_untied (row : list np.score) : Prop :=
  match row with
  | [] => True
  | v0 :: rest => Forall (fun v => ~ (v == v0)%Q) rest
  end.

(** The two users of the specification's scenario. *)
Definition two_users : list (list np.score) :=
  [[9#10; 1#10; 1#20]; [1#10; 9#10; 1#20]]%Q.

(** ** The metrics without the sort *)

(** The true item of a row is ranked when fewer than [_TOP_K] other
    columns score at least as much as it does. *)
Definition hit_by_count (row : list np.score) : bool :=
  (rank0 row <? _TOP_K)%nat.

(** The gain of a row, from the number of columns that outrank the true
    item. *)
Definition gain_by_count (row : list np.score) : R :=
  if hit_by_count row then (ln 2 / ln (INR (rank0 row) + 2))%R else 0%R.

(** [row'] is [row] with a score for the true item that is at least as
    high, the other columns as they were. *)
Definition true_item_raised (row row' : list np.score) : Prop :=
  match row, row' with
  | v0 :: rest, v0' :: rest' => rest' = rest /\ (v0 <= v0')%Q
  | _, _ => False
  end.

(** [row'] is [row] followed by further negatives. *)
Definition negatives_added (row row' : list np.score) : Prop :=
  exists extra, row' = row ++ extra.

(** The scores of every batch mapped by [f]. *)
Definition map_scores (f : np.score -> np.score)
  (prediction_batches : list (list np.score)) : list (list np.score) :=
  map (map f) prediction_batches.

(** ** The training and evaluation cycle of [run_ncf] *)

(** What the cycle uses from outside this file: the estimator, with its
    [train] (one call trains [epochs_between_evals] epochs), its [predict]
    on the evaluation set and its [get_variable_value] of the global step,
    and [model_helpers.past_stop_threshold]. Each call is taken to return:
    an exception raised inside a collaborator is not modelled. *)
Record collaborators : Type := {
  estimator : Type;
  train : estimator -> estimator;
  predict : estimator -> list (list np.score);
  get_variable_value : estimator -> Z;
  past_stop_threshold : option R -> R -> bool
}.

(** The flags the cycle reads. *)
Record flags : Type := {
  train_epochs : Z;
  epochs_between_evals : Z;
  hr_threshold : option R
}.

Inductive run_error : Type :=
| ZeroDivisionError              (* integer division or modulo by zero *)
| EvaluationError (e : error).   (* raised inside evaluate_model *)

Inductive outcome (A : Type) : Type :=
| Failed (e : run_error)
| Finished (a : A).

Arguments Failed {A} e.
Arguments Finished {A} a.

(** The [for cycle_index in range(...)] loop with [cycles] iterations to
    go: train, evaluate, log the result, and leave the loop when the Hit
    Ratio is past the threshold. [logged] is what the benchmark logger
    has received so far. *)
Fixpoint training_cycles (C : collaborators) (FLAGS : flags)
  (num_users : Z) (cycles : nat) (est : estimator C)
  (logged : list eval_results)
  : outcome (estimator C * list eval_results) :=
  match cycles with
  | O => Finished (est, logged)
  | S cycles' =>
      let est := @train C est in
      match evaluate_model (@predict C est) num_users
              (@get_variable_value C est) with
      | Raise e => Failed (EvaluationError e)
      | Return eval_results =>
          let logged := logged ++ [eval_results] in
          if @past_stop_threshold C (hr_threshold FLAGS) (HR eval_results)
          then Finished (est, logged)
          else training_cycles C FLAGS num_users cycles' est logged
      end
  end.

(** The training and evaluation cycle of [run_ncf], from the estimator as
    it was created: the final estimator and the logged evaluations. *)
Definition run_ncf (C : collaborators) (FLAGS : flags) (num_users : Z)
  (est : estimator C) : outcome (estimator C * list eval_results) :=
  if (epochs_between_evals FLAGS =? 0)%Z then Failed ZeroDivisionError
  else
    let total_training_cycle :=
      (train_epochs FLAGS / epochs_between_evals FLAGS)%Z in
    training_cycles C FLAGS num_users (Z.to_nat total_training_cycle) est [].

(** The estimator after [i] calls of [train]. *)
Definition trained (C : collaborators) (i : nat) (est : estimator C)
  : estimator C :=
  Nat.iter i (@train C) est.

(** What [evaluate_model] gives on the estimator after [i] calls of
    [train]. *)
Definition evaluation_after (C : collaborators) (num_users : Z)
  (est : estimator C) (i : nat) : result eval_results :=
  evaluate_model (@predict C (trained C i est)) num_users
    (@get_variable_value C (trained C i est)).

(** An estimator that counts its training calls and always predicts the
    scores of [two_users], with a threshold that is never passed. *)
Definition counting_run : collaborators := {|
  estimator := nat;
  train := S;
  predict := fun _ => two_users;
  get_variable_value := Z.of_nat;
  past_stop_threshold := fun _ _ => false
|}.

(** The same estimator with a threshold that is passed at once. *)
Definition stopping_run : collaborators := {|
  estimator := nat;
  train := S;
  predict := fun _ => two_users;
  get_variable_value := Z.of_nat;
  past_stop_threshold := fun _ _ => true
|}.

(** What [evaluate_model] returns on [two_users] at a global step. *)
Definition two_users_results (global_step : Z) : eval_results := {|
  HR := (INR 2 / IZR 2)%R;
  NDCG := (np.sum (gains [(0, 0); (1, 1)]%nat) / IZR 2)%R;
  GLOBAL_STEP := global_step
|}.

(** ** NumPy's default argsort: the introsort of npysort *)

Module npysort.

Definition SMALL_QUICKSORT : nat := 16.

(** [t[i]] and [t[i] = x] on the index array. *)
Definition get (t : list nat) (i : nat) : nat := nth i t 0%nat.

Definition set (t : list nat) (i x : nat) : list nat :=
  if (i <? length t)%nat then firstn i t ++ x :: skipn (S i) t else t.

(** [INTP_SWAP(t[i], t[j])]. *)
Definition swap (t : list nat) (i j : nat) : list nat :=
  set (set t i (get t j)) j (get t i).

(** [v[c]], the score the indices are sorted by. *)
Definition value (v : list np.score) (c : nat) : np.score := nth c v 0%Q.

(** [v[t[i]] < v[t[j]]]. *)
Definition LT (v : list np.score) (t : list nat) (i j : nat) : bool :=
  np.ltb (value v (get t i)) (value v (get t j)).

(** [npy_get_msb]: how often the number can be halved before it is 0. *)
Definition npy_get_msb (unum : nat) : nat := Nat.log2 unum.

(** The insertion sort of the range [pl..pr]: the inner [while] moves the
    entries above [vp] one place up, from [pj] downwards. *)
Fixpoint shift_up (fuel : nat) (v : list np.score) (t : list nat)
  (vp : np.score) (pl pj : nat) : list nat * nat :=
  match fuel with
  | O => (t, pj)
  | S fuel' =>
      if (pl <? pj)%nat && np.ltb vp (value v (get t (pj - 1)))
      then shift_up fuel' v (set t pj (get t (pj - 1))) vp pl (pj - 1)
      else (t, pj)
  end.

Definition insert_at (v : list np.score) (t : list nat) (pl pi : nat)
  : list nat :=
  let vi := get t pi in
  let vp := value v vi in
  let '(t, pj) := shift_up pi v t vp pl pi in
  set t pj vi.

Fixpoint insertion_loop (count : nat) (v : list np.score) (t : list nat)
  (pl pi : nat) : list nat :=
  match count with
  | O => t
  | S count' => insertion_loop count' v (insert_at v t pl pi) pl (S pi)
  end.

Definition insertion_sort (v : list np.score) (t : list nat) (pl pr : nat)
  : list nat :=
  insertion_loop (pr - pl) v t pl (S pl).

(** [aheapsort] on the [n] entries from [off] on; the heap is indexed from
    1, so that [a[k]] is [t[off + k - 1]]. *)
Definition hget (t : list nat) (off k : nat) : nat := get t (off + k - 1).

Definition hset (t : list nat) (off k x : nat) : list nat :=
  set t (off + k - 1) x.

(** The sifting loop [for (i, j; j <= n;)], closed by [a[i] = tmp]. *)
Fixpoint sift (fuel : nat) (v : list np.score) (t : list nat)
  (off n tmp i j : nat) : list nat :=
  match fuel with
  | O => hset t off i tmp
  | S fuel' =>
      if (j <=? n)%nat then
        let j :=
          if (j <? n)%nat &&
             np.ltb (value v (hget t off j)) (value v (hget t off (j + 1)))
          then (j + 1)%nat else j in
        if np.ltb (value v tmp) (value v (hget t off j))
        then sift fuel' v (hset t off i (hget t off j)) off n tmp j (j + j)
        else hset t off i tmp
      else hset t off i tmp
  end.

(** [for (l = n>>1; l > 0; --l)]. *)
Fixpoint heapify (l : nat) (v : list np.score) (t : list nat) (off n : nat)
  : list nat :=
  match l with
  | O => t
  | S l' =>
      heapify l' v (sift n v t off n (hget t off l) l (2 * l)) off n
  end.

(** [for (; n > 1;)]. *)
Fixpoint extract (count : nat) (v : list np.score) (t : list nat)
  (off n : nat) : list nat :=
  match count with
  | O => t
  | S count' =>
      if (1 <? n)%nat then
        let tmp := hget t off n in
        let t := hset t off n (hget t off 1) in
        let n := (n - 1)%nat in
        extract count' v (sift n v t off n tmp 1 2) off n
      else t
  end.

Definition aheapsort (v : list np.score) (t : list nat) (off n : nat)
  : list nat :=
  extract n v (heapify (n / 2) v t off n) off n.

(** [do ++pi; while (v[*pi] < vp)]. *)
Fixpoint scan_up (fuel : nat) (v : list np.score) (t : list nat)
  (vp : np.score) (pi : nat) : nat :=
  match fuel with
  | O => pi
  | S fuel' =>
      let pi := S pi in
      if np.ltb (value v (get t pi)) vp then scan_up fuel' v t vp pi else pi
  end.

(** [do --pj; while (vp < v[*pj])]. *)
Fixpoint scan_down (fuel : nat) (v : list np.score) (t : list nat)
  (vp : np.score) (pj : nat) : nat :=
  match fuel with
  | O => pj
  | S fuel' =>
      let pj := (pj - 1)%nat in
      if np.ltb vp (value v (get t pj)) then scan_down fuel' v t vp pj
      else pj
  end.

(** The [for (;;)] of the partition. *)
Fixpoint partition_loop (fuel : nat) (v : list np.score) (t : list nat)
  (vp : np.score) (pi pj : nat) : list nat * nat :=
  match fuel with
  | O => (t, pi)
  | S fuel' =>
      let pi := scan_up (length t) v t vp pi in
      let pj := scan_down (length t) v t vp pj in
      if (pj <=? pi)%nat then (t, pi)
      else partition_loop fuel' v (swap t pi pj) vp pi pj
  end.

(** A range left for later, with the depth it was pushed at. *)
Definition frame : Type := (nat * nat * Z)%type.

(** [while ((pr - pl) > SMALL_QUICKSORT)]: median of three, partition, push
    the larger part and go on with the smaller. *)
Fixpoint quick_loop (fuel : nat) (v : list np.score) (t : list nat)
  (pl pr : nat) (cdepth : Z) (stack : list frame)
  : list nat * nat * nat * list frame :=
  match fuel with
  | O => (t, pl, pr, stack)
  | S fuel' =>
      if (SMALL_QUICKSORT <? pr - pl)%nat then
        let pm := (pl + (pr - pl) / 2)%nat in
        let t := if LT v t pm pl then swap t pm pl else t in
        let t := if LT v t pr pm then swap t pr pm else t in
        let t := if LT v t pm pl then swap t pm pl else t in
        let vp := value v (get t pm) in
        let pi := pl in
        let pj := (pr - 1)%nat in
        let t := swap t pm pj in
        let '(t, pi) := partition_loop (length t) v t vp pi pj in
        let pk := (pr - 1)%nat in
        let t := swap t pi pk in
        let cdepth := (cdepth - 1)%Z in
        if (pi - pl <? pr - pi)%nat
        then quick_loop fuel' v t pl (pi - 1) cdepth
               ((S pi, pr, cdepth) :: stack)
        else quick_loop fuel' v t (S pi) pr cdepth
               ((pl, (pi - 1)%nat, cdepth) :: stack)
      else (t, pl, pr, stack)
  end.

(** [while (1)]: a range whose depth is used up goes to the heapsort, any
    other is partitioned down to a short range that the insertion sort
    finishes; then the next range is popped. *)
Fixpoint sort_loop (fuel : nat) (v : list np.score) (t : list nat)
  (pl pr : nat) (cdepth : Z) (stack : list frame) : list nat :=
  match fuel with
  | O => t
  | S fuel' =>
      let '(t, stack) :=
        if (cdepth <? 0)%Z
        then (aheapsort v t pl (pr - pl + 1), stack)
        else
          let '(t, pl, pr, stack) :=
            quick_loop (length t) v t pl pr cdepth stack in
          (insertion_sort v t pl pr, stack) in
      match stack with
      | [] => t
      | (pl, pr, cdepth) :: stack => sort_loop fuel' v t pl pr cdepth stack
      end
  end.

(** [aquicksort]: the indices of [v] in the order the introsort leaves
    them in. *)
Definition aquicksort (v : list np.score) : list nat :=
  let num := length v in
  sort_loop (S num) v (seq 0 num) 0 (num - 1)
    (Z.of_nat (npy_get_msb num) * 2) [].

End npysort.

(** ** The evaluator for any sort *)

(** NumPy promises of [np.argsort] an ascending order of the row, not
    which one when scores are equal. The definitions below are those of
    [evaluate_model] with the row sort as a parameter; [evaluate_model]
    is the instance at [np.argsort_row], and what NumPy's default kind
    does is the instance at [npysort.aquicksort]. *)
Definition top_indicies_with (argsort_row : list np.score -> list nat)
  (predicted_scores_by_user : list (list np.score)) : list (list nat) :=
  let top_indicies :=
    np.slice_last _TOP_K (map argsort_row predicted_scores_by_user) in
  np.flip top_indicies.

Definition evaluate_model_with (argsort_row : list np.score -> list nat)
  (prediction_batches : list (list np.score))
  (num_users : Z) (global_step : Z) : result eval_results :=
  flat <- np.concatenate prediction_batches ;;
  predicted_scores_by_user <- np.reshape flat num_users ;;
  let top_indicies := top_indicies_with argsort_row predicted_scores_by_user in
  let hit_indicies := np.argwhere (np.equal top_indicies 0) in
  let hr := (INR (length hit_indicies) / IZR num_users)%R in
  let ndcg := (np.sum (gains hit_indicies) / IZR num_users)%R in
  Return {| HR := hr; NDCG := ndcg; GLOBAL_STEP := global_step |}.

Definition hit_indicies_with (argsort_row : list np.score -> list nat)
  (prediction_batches : list (list np.score))
  (num_users : Z) : result (list (nat * nat)) :=
  flat <- np.concatenate prediction_batches ;;
  predicted_scores_by_user <- np.reshape flat num_users ;;
  Return (np.argwhere
            (np.equal (top_indicies_with argsort_row predicted_scores_by_user)
               0)).

(** The row sort returns an ascending order of every row. *)
Definition sorts (argsort_row : list np.score -> list nat) : Prop :=
  forall row, ascending_order row (argsort_row row).

(** The top-K ranking of one row. *)
Definition top_k_with (argsort_row : list np.score -> list nat)
  (row : list np.score) : list nat :=
  rev (np.take_last _TOP_K (argsort_row row)).

(** The rank of the true item in it, and what the row adds to the two
    sums. *)
Definition hit_rank_with (argsort_row : list np.score -> list nat)
  (row : list np.score) : option nat :=
  find_index 0 (top_k_with argsort_row row).

Definition row_hit_with (argsort_row : list np.score -> list nat)
  (row : list np.score) : R :=
  match hit_rank_with argsort_row row with
  | Some _ => 1%R
  | None => 0%R
  end.

Definition row_gain_with (argsort_row : list np.score -> list nat)
  (row : list np.score) : R :=
  match hit_rank_with argsort_row row with
  | Some r => (ln 2 / ln (INR r + 2))%R
  | None => 0%R
  end.

(** The number of other columns of a row that score strictly more than
    column 0. *)
Definition outscoring (row : list np.score) : nat :=
  match row with
  | [] => O
  | v0 :: rest => length (filter (fun v => np.ltb v0 v) rest)
  end.

(** Two rows of 18 columns that differ in the place of one negative: all
    scores are 5 but a 1 in column 8, or column 1, and a 9 in column 17. *)
Definition tied_row_A : list np.score :=
  [5; 5; 5; 5; 5; 5; 5; 5; 1; 5; 5; 5; 5; 5; 5; 5; 5; 9]%Q.

Definition tied_row_B : list np.score :=
  [5; 1; 5; 5; 5; 5; 5; 5; 5; 5; 5; 5; 5; 5; 5; 5; 5; 9]%Q.

(** ** The evaluator on concrete predictions *)

Example top_indicies_two_users :
  top_indicies_of two_users = [[0; 1; 2]; [1; 0; 2]]%nat.
Proof. reflexivity. Qed.

Example hit_indicies_two_users :
  hit_indicies_of [[9#10; 1#10; 1#20]; [1#10; 9#10; 1#20]]%Q 2
  = Return [(0, 0); (1, 1)]%nat.
Proof. reflexivity. Qed.

(** Eleven columns, ten of them above the true item: no hit. *)
Example hit_indicies_wide_row :
  hit_indicies_of [[1; 2; 3; 4; 5; 6; 7; 8; 9; 10; 11]]%Q 1 = Return [].
Proof. reflexivity. Qed.

(** Eleven equal scores: the true item is the one column left out. *)
Example hit_indicies_all_tied :
  hit_indicies_of [[1; 1; 1; 1; 1; 1; 1; 1; 1; 1; 1]]%Q 1 = Return [].
Proof. reflexivity. Qed.

Example hit_indicies_no_batch :
  hit_indicies_of [] 2 = Raise ConcatenateEmpty.
Proof. reflexivity. Qed.

Example hit_indicies_negative_users :
  hit_indicies_of [[1; 2]]%Q (-2) = Raise ReshapeTwoUnknown.
Proof. reflexivity. Qed.

Example hit_indicies_odd_length :
  hit_indicies_of [[1; 2; 3]]%Q 2 = Raise ReshapeSizeMismatch.
Proof. reflexivity. Qed.

(** [hit_indicies_of] is the [hit_indicies] of [evaluate_model]. *)
Lemma evaluate_model_hit_indicies
  (prediction_batches : list (list np.score)) (num_users global_step : Z) :
  evaluate_model prediction_batches num_users global_step
  = hit_indicies <- hit_indicies_of prediction_batches num_users ;;
    Return {| HR := (INR (length hit_indicies) / IZR num_users)%R;
              NDCG := (np.sum (gains hit_indicies) / IZR num_users)%R;
              GLOBAL_STEP := global_step |}.
Proof.
  unfold evaluate_model, hit_indicies_of.
  destruct (np.concatenate prediction_batches) as [e|flat]; simpl;
    [reflexivity|].
  destruct (np.reshape flat num_users) as [e|m]; reflexivity.
Qed.

(** ** Comparison of scores *)

Lemma ltb_lt (x y : np.score) : np.ltb x y = true <-> (x < y)%Q.
Proof.
  unfold np.ltb. rewrite negb_true_iff. split; intros H.
  - apply Qnot_le_lt. intros Hle. apply Qle_bool_iff in Hle. congruence.
  - destruct (Qle_bool y x) eqn:E; [|reflexivity].
    apply Qle_bool_iff in E. exfalso. exact (Qlt_not_le _ _ H E).
Qed.

Lemma ltb_ge (x y : np.score) : np.ltb x y = false <-> (y <= x)%Q.
Proof.
  unfold np.ltb. rewrite negb_false_iff. apply Qle_bool_iff.
Qed.

Lemma ltb_scale (c x y : np.score) :
  (0 < c)%Q -> np.ltb (c * x) (c * y) = np.ltb x y.
Proof.
  intros Hc. unfold np.ltb. f_equal.
  destruct (Qle_bool y x) eqn:E.
  - apply Qle_bool_iff. apply Qle_bool_iff in E.
    rewrite !(Qmult_comm c). apply Qmult_le_compat_r; [exact E|].
    apply Qlt_le_weak. exact Hc.
  - destruct (Qle_bool (c * y) (c * x)) eqn:E'; [|reflexivity].
    apply Qle_bool_iff in E'. rewrite !(Qmult_comm c) in E'.
    apply Qmult_le_r in E'; [|exact Hc].
    apply Qle_bool_iff in E'. congruence.
Qed.

(** ** Reshaping *)

Lemma rows_of_concat (w : nat) (m : list (list np.score)) :
  Forall (fun row => length row = w) m ->
  np.rows_of (length m) w (concat m) = m.
Proof.
  induction 1 as [|row m Hrow _ IH]; simpl; [reflexivity|].
  subst w. rewrite firstn_app, Nat.sub_diag, firstn_all. simpl.
  rewrite app_nil_r. f_equal.
  rewrite skipn_app, Nat.sub_diag, skipn_all. simpl. exact IH.
Qed.

Lemma length_concat_matrix (n w : nat) (m : list (list np.score)) :
  matrix n w m -> length (concat m) = (n * w)%nat.
Proof.
  intros [Hn Hw]. subst n. induction Hw as [|row m Hrow _ IH]; simpl.
  - reflexivity.
  - rewrite length_app, IH, Hrow. reflexivity.
Qed.

Lemma reshape_matrix (n w : nat) (m : list (list np.score)) :
  (1 <= n)%nat -> matrix n w m ->
  np.reshape (concat m) (Z.of_nat n) = Return m.
Proof.
  intros Hn Hm. unfold np.reshape.
  rewrite (length_concat_matrix Hm).
  destruct (Z.ltb_spec (Z.of_nat n) 0); [lia|].
  destruct (Z.eqb_spec (Z.of_nat n) 0); [lia|]. simpl.
  rewrite Nat2Z.inj_mul, Z.mul_comm, Z_mod_mult. simpl.
  rewrite Z_div_mult by lia. rewrite !Nat2Z.id.
  destruct Hm as [Hlen Hw]. subst n. rewrite rows_of_concat; auto.
Qed.

Lemma rows_of_length (n w : nat) (a : list np.score) :
  length (np.rows_of n w a) = n.
Proof.
  revert a. induction n as [|n IH]; intros a; simpl; [reflexivity|].
  now rewrite IH.
Qed.

Lemma rows_of_matrix (n w : nat) (a : list np.score) :
  length a = (n * w)%nat ->
  matrix n w (np.rows_of n w a) /\ concat (np.rows_of n w a) = a.
Proof.
  revert a. induction n as [|n IH]; intros a Ha; simpl in *.
  - apply length_zero_iff_nil in Ha. subst a. repeat split. constructor.
  - destruct (IH (skipn w a)) as [[Hn Hw] Hc].
    { rewrite length_skipn. lia. }
    repeat split.
    + simpl. now rewrite Hn.
    + constructor; [|exact Hw]. rewrite length_firstn. lia.
    + rewrite Hc. apply firstn_skipn.
Qed.

(** Whatever [reshape] returns is a matrix with [num_users] rows that
    flattens back to the array it was made from. *)
Lemma reshape_Return (a : list np.score) (num_users : Z)
  (m : list (list np.score)) :
  np.reshape a num_users = Return m ->
  (0 < num_users)%Z /\
  matrix (Z.to_nat num_users)
    (Z.to_nat (Z.of_nat (length a) / num_users)) m /\
  concat m = a.
Proof.
  unfold np.reshape. intros H.
  destruct (Z.ltb_spec num_users 0); [discriminate|].
  destruct (Z.eqb_spec num_users 0); [discriminate|]. simpl in H.
  destruct (Z.eqb_spec (Z.of_nat (length a) mod num_users) 0) as [Hmod|];
    [|discriminate].
  simpl in H. injection H as <-. split; [lia|].
  apply rows_of_matrix.
  apply Nat2Z.inj. rewrite Nat2Z.inj_mul, !Z2Nat.id; try lia.
  - rewrite (Z.div_mod (Z.of_nat (length a)) num_users) at 1 by lia. lia.
  - apply Z.div_pos; lia.
Qed.

(** ** The insertion sort *)

Section Insertion.

Implicit Types (p x : nat * np.score) (l A B : list (nat * np.score)).

Lemma insert_length p l : length (np.insert p l) = S (length l).
Proof.
  induction l as [|q l IH]; simpl; [reflexivity|].
  destruct (np.ltb (snd p) (snd q)); simpl; [reflexivity|now rewrite IH].
Qed.

Lemma insert_perm p l : Permutation (np.insert p l) (p :: l).
Proof.
  induction l as [|q l IH]; simpl; [apply Permutation_refl|].
  destruct (np.ltb (snd p) (snd q)); [apply Permutation_refl|].
  rewrite IH. apply perm_swap.
Qed.

Lemma fold_insert_perm l acc :
  Permutation (fold_left sort_step l acc) (acc ++ l).
Proof.
  revert acc. induction l as [|p l IH]; intros acc; simpl.
  - now rewrite app_nil_r.
  - rewrite IH. unfold sort_step.
    rewrite (Permutation_app_tail l (insert_perm p acc)).
    apply (Permutation_middle acc l p).
Qed.

Lemma isort_fold l : np.isort l = fold_left sort_step l [].
Proof. reflexivity. Qed.

Lemma isort_perm l : Permutation (np.isort l) l.
Proof. exact (fold_insert_perm l []). Qed.

(** A pair that scores less than [x] stays to the left of [x]. *)
Lemma insert_before p x A B :
  np.ltb (snd p) (snd x) = true ->
  np.insert p (A ++ x :: B) = np.insert p A ++ x :: B.
Proof.
  intros Hlt. induction A as [|a A IH]; simpl.
  - now rewrite Hlt.
  - destruct (np.ltb (snd p) (snd a)); simpl; [reflexivity|now rewrite IH].
Qed.

(** A pair that scores at least as much as [x] goes to the right of [x],
    when everything to the left of [x] scores less than [x]. *)
Lemma insert_after p x A B :
  Forall (fun a => np.ltb (snd a) (snd x) = true) A ->
  np.ltb (snd p) (snd x) = false ->
  np.insert p (A ++ x :: B) = A ++ x :: np.insert p B.
Proof.
  intros HA Hge. induction HA as [|a A Ha _ IH]; simpl.
  - now rewrite Hge.
  - replace (np.ltb (snd p) (snd a)) with false; [now rewrite IH|].
    symmetry. apply ltb_ge. apply ltb_lt in Ha. apply ltb_ge in Hge.
    apply Qlt_le_weak. eapply Qlt_le_trans; eassumption.
Qed.

Lemma insert_Forall (P : nat * np.score -> Prop) p l :
  P p -> Forall P l -> Forall P (np.insert p l).
Proof.
  intros Hp Hl. eapply Permutation_Forall.
  - symmetry. apply insert_perm.
  - now constructor.
Qed.

(** Sorting on from a state where [x] already separates the smaller
    scores from the others keeps [x] as the separation, and every pair
    that scores at least as much as [x] lands to its right. *)
Lemma fold_insert_pivot x l : forall A B,
  Forall (fun a => np.ltb (snd a) (snd x) = true) A ->
  exists A' B',
    fold_left sort_step l (A ++ x :: B) = A' ++ x :: B' /\
    length B' = (length B + length (at_least x l))%nat.
Proof.
  induction l as [|p l IH]; intros A B HA; simpl.
  - exists A, B. split; [reflexivity|lia].
  - unfold sort_step at 2. destruct (np.ltb (snd p) (snd x)) eqn:E; simpl.
    + rewrite (@insert_before p x A B E).
      destruct (IH (np.insert p A) B) as (A' & B' & H1 & H2).
      { apply insert_Forall; assumption. }
      exists A', B'. split; assumption.
    + rewrite (@insert_after p x A B HA E).
      destruct (IH A (np.insert p B) HA) as (A' & B' & H1 & H2).
      exists A', B'. split; [assumption|].
      rewrite H2, insert_length. lia.
Qed.

(** The sort only looks at how scores compare: a map on the scores that
    keeps every comparison commutes with it. *)
Section Comparisons.

Variable f : np.score -> np.score.
Hypothesis f_ltb : forall a b, np.ltb (f a) (f b) = np.ltb a b.

Lemma insert_lifted p l :
  np.insert (on_score f p) (map (on_score f) l)
  = map (on_score f) (np.insert p l).
Proof.
  induction l as [|q l IH]; simpl; [reflexivity|].
  rewrite f_ltb. destruct (np.ltb (snd p) (snd q)); simpl;
    [reflexivity|now rewrite IH].
Qed.

Lemma fold_insert_lifted l acc :
  fold_left sort_step (map (on_score f) l) (map (on_score f) acc)
  = map (on_score f) (fold_left sort_step l acc).
Proof.
  revert acc. induction l as [|p l IH]; intros acc; simpl; [reflexivity|].
  unfold sort_step at 2 4. rewrite insert_lifted. apply IH.
Qed.

Lemma enumerate_map row :
  np.enumerate (map f row) = map (on_score f) (np.enumerate row).
Proof.
  unfold np.enumerate. rewrite length_map.
  generalize (seq 0 (length row)) as cols.
  induction row as [|v row IH]; intros [|i cols]; simpl; try reflexivity.
  now rewrite IH.
Qed.

Lemma argsort_row_map row :
  np.argsort_row (map f row) = np.argsort_row row.
Proof.
  unfold np.argsort_row. rewrite !isort_fold, enumerate_map.
  change (@nil (nat * np.score)) with (map (on_score f) []).
  rewrite (fold_insert_lifted (np.enumerate row) []).
  rewrite map_map. reflexivity.
Qed.

End Comparisons.

End Insertion.

(** ** The ranking of one row *)

Lemma map_fst_combine (A B : Type) (l1 : list A) (l2 : list B) :
  length l1 = length l2 -> map fst (combine l1 l2) = l1.
Proof.
  revert l2. induction l1 as [|a l1 IH]; intros [|b l2] H; simpl in *;
    try reflexivity; try discriminate.
  f_equal. apply IH. now injection H.
Qed.

Lemma filter_snd_combine (A B : Type) (g : B -> bool) (l1 : list A)
  (l2 : list B) :
  length l1 = length l2 ->
  length (filter (fun p => g (snd p)) (combine l1 l2)) = length (filter g l2).
Proof.
  revert l2. induction l1 as [|a l1 IH]; intros [|b l2] H; simpl in *;
    try reflexivity; try discriminate.
  injection H as H. destruct (g b); simpl; rewrite (IH l2 H); reflexivity.
Qed.

Lemma argsort_row_perm (row : list np.score) :
  Permutation (np.argsort_row row) (seq 0 (length row)).
Proof.
  unfold np.argsort_row. rewrite (Permutation_map fst (isort_perm _)).
  unfold np.enumerate. rewrite map_fst_combine; [reflexivity|].
  now rewrite length_seq.
Qed.

Lemma argsort_row_NoDup (row : list np.score) : NoDup (np.argsort_row row).
Proof.
  eapply Permutation_NoDup.
  - symmetry. apply argsort_row_perm.
  - apply seq_NoDup.
Qed.

Lemma argsort_row_length (row : list np.score) :
  length (np.argsort_row row) = length row.
Proof.
  rewrite (Permutation_length (argsort_row_perm row)). apply length_seq.
Qed.

(** In the ascending order of a row, column 0 is followed by exactly the
    other columns that score at least as much. *)
Lemma argsort_row_split (v0 : np.score) (rest : list np.score) :
  exists A B,
    np.argsort_row (v0 :: rest) = A ++ 0%nat :: B /\
    length B = rank0 (v0 :: rest).
Proof.
  unfold np.argsort_row, np.enumerate. rewrite isort_fold. simpl.
  destruct (@fold_insert_pivot (0%nat, v0)
              (combine (seq 1 (length rest)) rest) [] [])
    as (A & B & H1 & H2); [constructor|].
  change ([] ++ [(0%nat, v0)]) with [(0%nat, v0)] in H1. rewrite H1.
  exists (map fst A), (map fst B). split.
  - now rewrite map_app.
  - rewrite length_map, H2. simpl. unfold at_least. simpl.
    rewrite (filter_snd_combine
               (fun v => negb (np.ltb v v0)) (seq 1 (length rest)) rest)
      by now rewrite length_seq.
    unfold np.ltb. f_equal. apply filter_ext. intros v.
    apply negb_involutive.
Qed.

Lemma find_index_None (x : nat) (l : list nat) :
  find_index x l = None <-> ~ In x l.
Proof.
  induction l as [|y l IH]; simpl.
  - split; auto.
  - destruct (Nat.eqb_spec y x) as [->|Hne].
    + split; [discriminate|]. intros H. exfalso. apply H. now left.
    + destruct (find_index x l); simpl.
      * split; [discriminate|]. intros H. exfalso. apply H. right.
        destruct IH as [IH1 IH2]. 
        destruct (in_dec Nat.eq_dec x l) as [Hin|Hnin]; [exact Hin|].
        discriminate (IH2 Hnin).
      * split; [|reflexivity]. intros _ [H|H]; [contradiction|].
        destruct IH as [IH1 _]. exact (IH1 eq_refl H).
Qed.

Lemma find_index_app (x : nat) (l1 l2 : list nat) :
  ~ In x l1 -> find_index x (l1 ++ x :: l2) = Some (length l1).
Proof.
  induction l1 as [|y l1 IH]; intros Hnin; simpl.
  - now rewrite Nat.eqb_refl.
  - destruct (Nat.eqb_spec y x) as [->|Hne].
    + exfalso. apply Hnin. now left.
    + rewrite IH; [reflexivity|]. intros H. apply Hnin. now right.
Qed.

Lemma find_index_existsb (x : nat) (l : list nat) :
  existsb (fun c => Nat.eqb c x) l
  = match find_index x l with Some _ => true | None => false end.
Proof.
  induction l as [|y l IH]; simpl; [reflexivity|].
  destruct (Nat.eqb y x); simpl; [reflexivity|].
  rewrite IH. now destruct (find_index x l).
Qed.

Lemma NoDup_skipn (A : Type) (n : nat) (l : list A) :
  NoDup l -> NoDup (skipn n l).
Proof.
  intros H. rewrite <- (firstn_skipn n l) in H.
  exact (NoDup_app_remove_l _ _ H).
Qed.

(** The last [k] entries of a list cut around an entry [x], flipped: [x]
    is kept when fewer than [k] entries follow it, and then sits right
    after them. *)
Lemma find_index_take_last (k x : nat) (A B : list nat) :
  NoDup (A ++ x :: B) ->
  find_index x (rev (np.take_last k (A ++ x :: B)))
  = if (length B <? k)%nat then Some (length B) else None.
Proof.
  intros Hnd. unfold np.take_last.
  assert (HB : ~ In x B).
  { apply NoDup_remove_2 in Hnd. intros H. apply Hnd. apply in_or_app.
    now right. }
  rewrite length_app. simpl.
  destruct (Nat.ltb_spec (length B) k) as [Hlt|Hge].
  - rewrite skipn_app.
    replace (length A + S (length B) - k - length A)%nat with O by lia.
    simpl. rewrite rev_app_distr. simpl. rewrite <- app_assoc. simpl.
    rewrite find_index_app; [now rewrite length_rev|].
    now rewrite <- in_rev.
  - apply find_index_None. rewrite <- in_rev.
    rewrite skipn_app.
    rewrite (skipn_all2 A) by lia. simpl.
    destruct (length A + S (length B) - k - length A)%nat as [|j] eqn:E;
      [lia|].
    simpl. intros H. apply HB.
    rewrite <- (firstn_skipn j B). apply in_or_app. now right.
Qed.

Lemma top_k_row_NoDup (row : list np.score) : NoDup (top_k_row row).
Proof.
  unfold top_k_row, np.take_last. apply NoDup_rev. apply NoDup_skipn.
  apply argsort_row_NoDup.
Qed.

(** The true item is ranked in the top-K exactly when fewer than [_TOP_K]
    other columns score at least as much, and its rank is their number. *)
Lemma hit_rank_cons (v0 : np.score) (rest : list np.score) :
  hit_rank (v0 :: rest)
  = if (rank0 (v0 :: rest) <? _TOP_K)%nat
    then Some (rank0 (v0 :: rest)) else None.
Proof.
  unfold hit_rank, top_k_row.
  destruct (argsort_row_split v0 rest) as (A & B & Heq & Hlen).
  pose proof (argsort_row_NoDup (v0 :: rest)) as Hnd.
  rewrite Heq in *. rewrite find_index_take_last by exact Hnd.
  now rewrite Hlen.
Qed.

Lemma hit_rank_nil : hit_rank [] = None.
Proof. reflexivity. Qed.

Lemma hit_rank_bound (row : list np.score) (r : nat) :
  hit_rank row = Some r -> (r < _TOP_K)%nat.
Proof.
  destruct row as [|v0 rest]; [discriminate|].
  rewrite hit_rank_cons.
  destruct (Nat.ltb_spec (rank0 (v0 :: rest)) _TOP_K) as [Hlt|_];
    [|discriminate].
  intros Heq. injection Heq as <-. exact Hlt.
Qed.

(** ** From the hit positions to the rows *)

Lemma top_indicies_of_rows (m : list (list np.score)) :
  top_indicies_of m = map top_k_row m.
Proof.
  unfold top_indicies_of, np.flip, np.slice_last, np.argsort.
  rewrite !map_map. reflexivity.
Qed.

Lemma argwhere_row_absent (i j : nat) (top : list nat) :
  ~ In 0%nat top ->
  np.argwhere_row i j (map (fun y => Nat.eqb y 0) top) = [].
Proof.
  revert j. induction top as [|y top IH]; intros j Hnin; simpl;
    [reflexivity|].
  destruct (Nat.eqb_spec y 0) as [->|_].
  - exfalso. apply Hnin. now left.
  - apply IH. intros H. apply Hnin. now right.
Qed.

(** A row of distinct indices holds at most one hit, at the position of
    column 0. *)
Lemma argwhere_row_find (i j : nat) (top : list nat) :
  NoDup top ->
  np.argwhere_row i j (map (fun y => Nat.eqb y 0) top)
  = match find_index 0 top with
    | Some r => [(i, (j + r)%nat)]
    | None => []
    end.
Proof.
  intros Hnd. revert j. induction Hnd as [|y top Hnin Hnd IH]; intros j;
    simpl; [reflexivity|].
  destruct (Nat.eqb_spec y 0) as [->|_].
  - rewrite argwhere_row_absent by exact Hnin. now rewrite Nat.add_0_r.
  - rewrite IH. destruct (find_index 0 top); simpl; [|reflexivity].
    now rewrite Nat.add_succ_r.
Qed.

Lemma argwhere_from_rows (i : nat) (m : list (list np.score)) :
  let hits := np.argwhere_from i (np.equal (map top_k_row m) 0) in
  length hits = hit_rows m /\
  INR (length hits) = total row_hit m /\
  np.sum (gains hits) = total row_gain m.
Proof.
  revert i. induction m as [|row m IH]; intros i; simpl.
  - repeat split; reflexivity.
  - destruct (IH (S i)) as (IH1 & IH2 & IH3).
    rewrite argwhere_row_find by apply top_k_row_NoDup.
    unfold hit_rows, total in *. simpl.
    rewrite find_index_existsb. unfold row_hit at 1, row_gain at 1, hit_rank.
    destruct (find_index 0 (top_k_row row)) as [r|]; simpl.
    + repeat split.
      * now rewrite IH1.
      * rewrite <- IH2.
        destruct (length (np.argwhere_from (S i) (np.equal (map top_k_row m) 0)));
          simpl; lra.
      * now rewrite IH3.
    + repeat split; [assumption|lra|unfold np.sum in *; lra].
Qed.

Lemma concatenate_delivers (prediction_batches : list (list np.score))
  (m : list (list np.score)) :
  prediction_batches <> [] -> delivers prediction_batches m ->
  np.concatenate prediction_batches = Return (concat m).
Proof.
  intros Hne Heq. destruct prediction_batches as [|b bs]; [contradiction|].
  unfold np.concatenate. now rewrite Heq.
Qed.

(** On the batches of a matrix the evaluator returns, and its two sums run
    over the rows. *)
Lemma evaluate_model_rows (n w : nat) (m : list (list np.score))
  (prediction_batches : list (list np.score)) (global_step : Z) :
  (1 <= n)%nat -> matrix n w m ->
  prediction_batches <> [] -> delivers prediction_batches m ->
  evaluate_model prediction_batches (Z.of_nat n) global_step
  = Return {| HR := (total row_hit m / INR n)%R;
              NDCG := (total row_gain m / INR n)%R;
              GLOBAL_STEP := global_step |}.
Proof.
  intros Hn Hm Hne Hd. unfold evaluate_model.
  rewrite (concatenate_delivers Hne Hd). simpl.
  rewrite (reshape_matrix Hn Hm). simpl.
  rewrite top_indicies_of_rows.
  destruct (argwhere_from_rows 0 m) as (_ & H2 & H3).
  unfold np.argwhere. simpl in H2, H3. rewrite H2, H3.
  now rewrite <- INR_IZR_INZ.
Qed.

Lemma delivers_nonempty (n w : nat) (m : list (list np.score))
  (prediction_batches : list (list np.score)) :
  score_matrix n w m -> delivers prediction_batches m ->
  prediction_batches <> [].
Proof.
  intros (Hn & Hw & Hm) Hd ->. unfold delivers in Hd. simpl in Hd.
  apply (f_equal (@length np.score)) in Hd.
  rewrite (length_concat_matrix Hm) in Hd. simpl in Hd. nia.
Qed.

Lemma evaluate_model_score_matrix (n w : nat) (m : list (list np.score))
  (prediction_batches : list (list np.score)) (global_step : Z) :
  score_matrix n w m -> delivers prediction_batches m ->
  evaluate_model prediction_batches (Z.of_nat n) global_step
  = Return {| HR := (total row_hit m / INR n)%R;
              NDCG := (total row_gain m / INR n)%R;
              GLOBAL_STEP := global_step |}.
Proof.
  intros Hm Hd. pose proof (delivers_nonempty Hm Hd) as Hne.
  destruct Hm as (Hn & _ & Hm).
  exact (evaluate_model_rows global_step Hn Hm Hne Hd).
Qed.

(** Rows without any column are no score matrix: there is no true item to
    find, and both sums are empty. *)
Lemma evaluate_model_no_column (global_step : Z) :
  evaluate_model [[]] 1 global_step
  = Return {| HR := (0 / 1)%R; NDCG := (0 / 1)%R;
              GLOBAL_STEP := global_step |}.
Proof.
  change 1%Z with (Z.of_nat 1).
  rewrite (@evaluate_model_rows 1 0 [[]] [[]] global_step).
  - unfold total, row_hit, row_gain. simpl. now rewrite Rplus_0_r.
  - lia.
  - split; [reflexivity|repeat constructor].
  - discriminate.
  - reflexivity.
Qed.

(** ** The gain of a hit *)

Lemma ln_2_pos : (0 < ln 2)%R.
Proof. rewrite <- ln_1. apply ln_increasing; lra. Qed.

Lemma gain_bounds (r : nat) : (0 < ln 2 / ln (INR r + 2) <= 1)%R.
Proof.
  pose proof (pos_INR r) as Hr. pose proof ln_2_pos as H2.
  assert (Hle : (ln 2 <= ln (INR r + 2))%R).
  { destruct (Req_dec (INR r) 0) as [->|Hne].
    - rewrite Rplus_0_l. lra.
    - left. apply ln_increasing; lra. }
  split.
  - apply Rdiv_lt_0_compat; lra.
  - apply (Rmult_le_reg_r (ln (INR r + 2))); [lra|].
    unfold Rdiv. rewrite Rmult_assoc, Rinv_l by lra. lra.
Qed.

Lemma gain_top : (ln 2 / ln (INR 0 + 2) = 1)%R.
Proof.
  simpl. rewrite Rplus_0_l. field. pose proof ln_2_pos. lra.
Qed.

Lemma row_gain_bounds (row : list np.score) :
  (0 <= row_gain row <= row_hit row)%R.
Proof.
  unfold row_gain, row_hit. destruct (hit_rank row) as [r|]; [|lra].
  pose proof (gain_bounds r). lra.
Qed.

Lemma row_hit_bounds (row : list np.score) : (0 <= row_hit row <= 1)%R.
Proof. unfold row_hit. destruct (hit_rank row); lra. Qed.

Lemma total_le (f g : list np.score -> R) (m : list (list np.score)) :
  (forall row, f row <= g row)%R -> (total f m <= total g m)%R.
Proof.
  intros H. unfold total. induction m as [|row m IH]; simpl; [lra|].
  specialize (H row). lra.
Qed.

Lemma total_const (c : R) (m : list (list np.score)) :
  total (fun _ => c) m = (INR (length m) * c)%R.
Proof.
  unfold total. induction m as [|row m IH]; [simpl; lra|].
  change (length (row :: m)) with (S (length m)).
  rewrite S_INR. simpl map. simpl fold_right. rewrite IH. lra.
Qed.

Lemma total_ext_in (f g : list np.score -> R) (m : list (list np.score)) :
  Forall (fun row => f row = g row) m -> total f m = total g m.
Proof.
  unfold total. induction 1 as [|row m H _ IH]; simpl; [reflexivity|].
  now rewrite H, IH.
Qed.

Lemma div_bounds (x y : R) : (0 < y -> 0 <= x <= y -> 0 <= x / y <= 1)%R.
Proof.
  intros Hy [H0 H1]. split.
  - apply Rmult_le_reg_r with y; [exact Hy|].
    unfold Rdiv. rewrite Rmult_assoc, Rinv_l by lra. lra.
  - apply Rmult_le_reg_r with y; [exact Hy|].
    unfold Rdiv. rewrite Rmult_assoc, Rinv_l by lra. lra.
Qed.

Lemma div_le (x y z : R) : (0 < z -> x <= y -> x / z <= y / z)%R.
Proof.
  intros Hz Hxy. unfold Rdiv. apply Rmult_le_compat_r; [|exact Hxy].
  left. now apply Rinv_0_lt_compat.
Qed.

Lemma total_row_hit_bounds (m : list (list np.score)) :
  (0 <= total row_hit m <= INR (length m))%R.
Proof.
  split.
  - replace 0%R with (total (fun _ => 0%R) m)
      by (rewrite total_const; lra).
    apply total_le. intros row. apply row_hit_bounds.
  - replace (INR (length m)) with (total (fun _ => 1%R) m)
      by (rewrite total_const; lra).
    apply total_le. intros row. apply row_hit_bounds.
Qed.

Lemma total_row_gain_bounds (m : list (list np.score)) :
  (0 <= total row_gain m <= total row_hit m)%R.
Proof.
  split.
  - replace 0%R with (total (fun _ => 0%R) m)
      by (rewrite total_const; lra).
    apply total_le. intros row. apply row_gain_bounds.
  - apply total_le. intros row. apply row_gain_bounds.
Qed.

Lemma total_row_hit_count (m : list (list np.score)) :
  total row_hit m = INR (hit_rows m).
Proof.
  destruct (argwhere_from_rows 0 m) as (H1 & H2 & _). simpl in H1, H2.
  now rewrite <- H2, H1.
Qed.

Lemma two_users_score_matrix : score_matrix 2 3 two_users.
Proof. repeat split; try lia. repeat constructor. Qed.

(** ** The two metrics *)

(** C1. On a score matrix of [n] rows the evaluator returns a result whose
    Hit Ratio is the number of rows whose top-K ranking contains column 0,
    divided by [n], and whose NDCG is the sum, over the rows where column 0
    is ranked at 0-based position [r], of [ln 2 / ln (r + 2)], divided by
    [n]; a row without a hit adds nothing to either. *)
Theorem evaluate_model_metrics (n w : nat) (m : list (list np.score))
  (prediction_batches : list (list np.score)) (global_step : Z) :
  score_matrix n w m -> delivers prediction_batches m ->
  exists res,
    evaluate_model prediction_batches (Z.of_nat n) global_step = Return res /\
    HR res = (INR (hit_rows m) / INR n)%R /\
    NDCG res = (total row_gain m / INR n)%R.
Proof.
  intros Hm Hd. eexists. split.
  - apply (evaluate_model_score_matrix global_step Hm Hd).
  - simpl. now rewrite total_row_hit_count.
Qed.

Lemma evaluate_model_metrics_witness :
  exists res,
    evaluate_model [concat two_users] 2 7 = Return res /\
    HR res = (INR (hit_rows two_users) / INR 2)%R /\
    NDCG res = (total row_gain two_users / INR 2)%R.
Proof.
  apply (@evaluate_model_metrics 2 3 two_users [concat two_users] 7).
  - repeat split; try lia. repeat constructor.
  - reflexivity.
Defined.

(** C4. A flat score vector whose length is not a multiple of [num_users]
    makes the evaluator raise: no result is returned. *)
Theorem evaluate_model_length_mismatch
  (prediction_batches : list (list np.score)) (num_users global_step : Z) :
  ~ (num_users | Z.of_nat (length (concat prediction_batches)))%Z ->
  exists e,
    evaluate_model prediction_batches num_users global_step = Raise e.
Proof.
  intros Hndiv. unfold evaluate_model.
  destruct prediction_batches as [|b bs]; simpl; [eauto|].
  unfold np.reshape.
  destruct (Z.ltb_spec num_users 0); simpl; [eauto|].
  destruct (Z.eqb_spec num_users 0); simpl; [eauto|].
  destruct (Z.eqb_spec (Z.of_nat (length (b ++ concat bs)) mod num_users) 0)
    as [Hmod|_]; simpl; [|eauto].
  exfalso. apply Hndiv. apply Z.mod_divide; assumption.
Qed.

Lemma evaluate_model_length_mismatch_witness :
  exists e, evaluate_model [[1; 2; 3]]%Q 2 7 = Raise e.
Proof.
  apply (@evaluate_model_length_mismatch [[1; 2; 3]]%Q 2 7).
  simpl. intros [z Hz]. lia.
Defined.

(** C5. On every score matrix the evaluator returns a Hit Ratio and an NDCG
    that both lie between 0 and 1. *)
Theorem evaluate_model_unit_interval (n w : nat) (m : list (list np.score))
  (prediction_batches : list (list np.score)) (global_step : Z) :
  score_matrix n w m -> delivers prediction_batches m ->
  exists res,
    evaluate_model prediction_batches (Z.of_nat n) global_step = Return res /\
    (0 <= HR res <= 1)%R /\ (0 <= NDCG res <= 1)%R.
Proof.
  intros Hm Hd. eexists. split.
  - apply (evaluate_model_score_matrix global_step Hm Hd).
  - simpl. destruct Hm as (Hn & _ & Hlen & _).
    assert (Hpos : (0 < INR n)%R) by (apply lt_0_INR; lia).
    pose proof (total_row_hit_bounds m) as Hh.
    pose proof (total_row_gain_bounds m) as Hg.
    rewrite Hlen in Hh.
    split; apply div_bounds; lra.
Qed.

Lemma evaluate_model_unit_interval_witness :
  exists res,
    evaluate_model [concat two_users] 2 7 = Return res /\
    (0 <= HR res <= 1)%R /\ (0 <= NDCG res <= 1)%R.
Proof.
  apply (@evaluate_model_unit_interval 2 3 two_users [concat two_users] 7).
  - repeat split; try lia. repeat constructor.
  - reflexivity.
Defined.

(** C10. On every score matrix the NDCG the evaluator returns is at most
    the Hit Ratio it returns. *)
Theorem evaluate_model_ndcg_le_hr (n w : nat) (m : list (list np.score))
  (prediction_batches : list (list np.score)) (global_step : Z) :
  score_matrix n w m -> delivers prediction_batches m ->
  exists res,
    evaluate_model prediction_batches (Z.of_nat n) global_step = Return res /\
    (NDCG res <= HR res)%R.
Proof.
  intros Hm Hd. eexists. split.
  - apply (evaluate_model_score_matrix global_step Hm Hd).
  - simpl. destruct Hm as (Hn & _). apply div_le.
    + apply lt_0_INR. lia.
    + apply total_row_gain_bounds.
Qed.

Lemma evaluate_model_ndcg_le_hr_witness :
  exists res,
    evaluate_model [concat two_users] 2 7 = Return res /\
    (NDCG res <= HR res)%R.
Proof.
  apply (@evaluate_model_ndcg_le_hr 2 3 two_users [concat two_users] 7).
  - repeat split; try lia. repeat constructor.
  - reflexivity.
Defined.

(** ** Rows where the true item is sure to be ranked *)

Lemma filter_length_le (A : Type) (g : A -> bool) (l : list A) :
  (length (filter g l) <= length l)%nat.
Proof.
  induction l as [|a l IH]; simpl; [lia|]. destruct (g a); simpl; lia.
Qed.

Lemma rank0_first (row : list np.score) :
  true_item_first row -> rank0 row = 0%nat.
Proof.
  destruct row as [|v0 rest]; simpl; [contradiction|].
  induction 1 as [|v rest Hv _ IH]; simpl; [reflexivity|].
  replace (Qle_bool v0 v) with false; [exact IH|].
  symmetry. apply (ltb_lt v v0) in Hv. unfold np.ltb in Hv.
  now apply negb_true_iff in Hv.
Qed.

Lemma hit_rank_first (row : list np.score) :
  true_item_first row -> hit_rank row = Some 0%nat.
Proof.
  intros H. pose proof (rank0_first row H) as H0.
  destruct row as [|v0 rest]; [contradiction|].
  rewrite hit_rank_cons, H0. reflexivity.
Qed.

Lemma hit_rank_narrow (row : list np.score) :
  (1 <= length row <= _TOP_K)%nat -> exists r, hit_rank row = Some r.
Proof.
  destruct row as [|v0 rest]; simpl; [lia|]. intros Hw.
  rewrite hit_rank_cons.
  pose proof (filter_length_le (fun v => Qle_bool v0 v) rest) as Hle.
  destruct (Nat.ltb_spec (rank0 (v0 :: rest)) _TOP_K) as [_|Hge];
    [eauto|].
  unfold rank0, _TOP_K, np.score in *. lia.
Qed.

Lemma total_row_hit_all (m : list (list np.score)) :
  Forall (fun row => exists r, hit_rank row = Some r) m ->
  total row_hit m = INR (length m).
Proof.
  intros H. rewrite (@total_ext_in row_hit (fun _ => 1%R)).
  - rewrite total_const. lra.
  - eapply Forall_impl; [|exact H]. intros row [r Hr]. unfold row_hit.
    now rewrite Hr.
Qed.

(** C8. When column 0 holds the strictly highest score of every row, the
    evaluator returns Hit Ratio 1 and NDCG 1. *)
Theorem evaluate_model_true_item_first (n w : nat)
  (m : list (list np.score)) (prediction_batches : list (list np.score))
  (global_step : Z) :
  score_matrix n w m -> delivers prediction_batches m ->
  Forall true_item_first m ->
  exists res,
    evaluate_model prediction_batches (Z.of_nat n) global_step = Return res /\
    HR res = 1%R /\ NDCG res = 1%R.
Proof.
  intros Hm Hd Hfirst. eexists. split.
  - apply (evaluate_model_score_matrix global_step Hm Hd).
  - simpl. destruct Hm as (Hn & _ & Hlen & _).
    assert (Hpos : (0 < INR n)%R) by (apply lt_0_INR; lia). split.
    + rewrite total_row_hit_all.
      * rewrite Hlen. field. lra.
      * eapply Forall_impl; [|exact Hfirst]. intros row H.
        exists 0%nat. now apply hit_rank_first.
    + rewrite (@total_ext_in row_gain (fun _ => 1%R)).
      * rewrite total_const, Hlen. field. lra.
      * eapply Forall_impl; [|exact Hfirst]. intros row H.
        unfold row_gain. rewrite (hit_rank_first row H). apply gain_top.
Qed.

Lemma evaluate_model_true_item_first_witness :
  exists res,
    evaluate_model [[9#10; 1#10]; [1#2; 1#5]]%Q 2 7 = Return res /\
    HR res = 1%R /\ NDCG res = 1%R.
Proof.
  apply (@evaluate_model_true_item_first 2 2
           [[9#10; 1#10]; [1#2; 1#5]]%Q [[9#10; 1#10]; [1#2; 1#5]]%Q 7).
  - repeat split; try lia. repeat constructor.
  - reflexivity.
  - repeat constructor.
Defined.

(** C9. On a score matrix whose rows have at most [_TOP_K] columns the
    evaluator raises nothing and returns Hit Ratio 1, whatever the scores
    are. *)
Theorem evaluate_model_narrow_rows (n w : nat) (m : list (list np.score))
  (prediction_batches : list (list np.score)) (global_step : Z) :
  score_matrix n w m -> delivers prediction_batches m ->
  (w <= _TOP_K)%nat ->
  exists res,
    evaluate_model prediction_batches (Z.of_nat n) global_step = Return res /\
    HR res = 1%R.
Proof.
  intros Hm Hd Hw. eexists. split.
  - apply (evaluate_model_score_matrix global_step Hm Hd).
  - simpl. destruct Hm as (Hn & Hw1 & Hlen & Hrows).
    assert (Hpos : (0 < INR n)%R) by (apply lt_0_INR; lia).
    rewrite total_row_hit_all.
    + rewrite Hlen. field. lra.
    + eapply Forall_impl; [|exact Hrows]. intros row Hrow.
      apply hit_rank_narrow. rewrite Hrow. lia.
Qed.

Lemma evaluate_model_narrow_rows_witness :
  exists res,
    evaluate_model [concat two_users] 2 7 = Return res /\ HR res = 1%R.
Proof.
  apply (@evaluate_model_narrow_rows 2 3 two_users [concat two_users] 7).
  - repeat split; try lia. repeat constructor.
  - reflexivity.
  - unfold _TOP_K. lia.
Defined.

(** ** What the evaluator refuses *)

(** A row of 3 columns is narrower than [_TOP_K], and the evaluator
    returns a result on it all the same. *)
Lemma narrow_row_not_refused :
  (Z.of_nat (length (concat [[1; 2; 3]]%Q)) / 1 < Z.of_nat _TOP_K)%Z /\
  ~ (exists e, evaluate_model [[1; 2; 3]]%Q 1 7 = Raise e).
Proof.
  split; [reflexivity|]. intros [e H].
  assert (E : exists res, evaluate_model [[1; 2; 3]]%Q 1 7 = Return res).
  { eexists.
    apply (@evaluate_model_score_matrix 1 3 [[1; 2; 3]]%Q [[1; 2; 3]]%Q 7).
    - repeat split; try lia. repeat constructor.
    - reflexivity. }
  destruct E as [res E]. rewrite E in H. discriminate H.
Qed.

(** C3, as the code has it. The evaluator raises, before any metric is
    computed, exactly when no prediction batch came, when [num_users] is
    not positive, or when the number of scores is not a multiple of
    [num_users]. The top-K is the constant 10, and a row narrower than it
    is not among the refused inputs. *)
Theorem evaluate_model_raises_iff
  (prediction_batches : list (list np.score)) (num_users global_step : Z) :
  (exists e,
     evaluate_model prediction_batches num_users global_step = Raise e)
  <->
  prediction_batches = [] \/ (num_users <= 0)%Z \/
  ~ (num_users | Z.of_nat (length (concat prediction_batches)))%Z.
Proof.
  unfold evaluate_model.
  destruct prediction_batches as [|b bs]; simpl.
  { split; [now left|eauto]. }
  unfold np.reshape.
  destruct (Z.ltb_spec num_users 0) as [Hneg|Hnneg]; simpl.
  { split; [right; left; lia|eauto]. }
  destruct (Z.eqb_spec num_users 0) as [Hz|Hnz]; simpl.
  { split; [right; left; lia|eauto]. }
  destruct (Z.eqb_spec (Z.of_nat (length (b ++ concat bs)) mod num_users) 0)
    as [Hmod|Hmod]; simpl.
  - split.
    + intros [e He]. discriminate He.
    + intros [H|[H|H]]; [discriminate H|lia|].
      exfalso. apply H. apply Z.mod_divide; assumption.
  - split; [|eauto]. intros _. right. right. intros Hdiv.
    apply Hmod. apply Z.mod_divide; assumption.
Qed.

Lemma evaluate_model_raises_iff_witness :
  exists e, evaluate_model [[1; 2; 3]]%Q 0 7 = Raise e.
Proof.
  apply (proj2 (evaluate_model_raises_iff [[1; 2; 3]]%Q 0 7)).
  right. left. lia.
Defined.

(** ** Changes of the scores that keep the metrics *)

Lemma total_Forall2 (f : list np.score -> R) (m m' : list (list np.score)) :
  Forall2 (fun row row' => f row' = f row) m m' -> total f m' = total f m.
Proof.
  unfold total. induction 1 as [|row row' m m' H _ IH]; simpl;
    [reflexivity|].
  now rewrite H, IH.
Qed.

Lemma Forall2_matrix (P : list np.score -> list np.score -> Prop)
  (n w : nat) (m m' : list (list np.score)) :
  (forall row row', P row row' -> length row' = length row) ->
  Forall2 P m m' -> matrix n w m -> matrix n w m'.
Proof.
  intros HP H [Hn Hw]. split.
  - rewrite <- Hn. symmetry. exact (Forall2_length H).
  - clear Hn. induction H as [|row row' m m' Hrow _ IH]; [constructor|].
    inversion Hw; subst. constructor; [|now apply IH].
    now apply HP.
Qed.

Lemma evaluate_model_related (P : list np.score -> list np.score -> Prop)
  (n w : nat) (m m' : list (list np.score))
  (prediction_batches prediction_batches' : list (list np.score))
  (global_step : Z) :
  (forall row row', P row row' -> length row' = length row) ->
  (forall row row', P row row' -> hit_rank row' = hit_rank row) ->
  score_matrix n w m -> Forall2 P m m' ->
  delivers prediction_batches m -> delivers prediction_batches' m' ->
  evaluate_model prediction_batches' (Z.of_nat n) global_step
  = evaluate_model prediction_batches (Z.of_nat n) global_step.
Proof.
  intros Hlen Hrank Hm HP Hd Hd'.
  assert (Hm' : score_matrix n w m').
  { destruct Hm as (Hn & Hw & Hm). repeat split; try assumption;
      apply (Forall2_matrix Hlen HP Hm). }
  rewrite (evaluate_model_score_matrix global_step Hm Hd).
  rewrite (evaluate_model_score_matrix global_step Hm' Hd').
  rewrite (@total_Forall2 row_hit m m'), (@total_Forall2 row_gain m m');
    [reflexivity| |];
    (eapply Forall2_impl; [|exact HP]); intros row row' H;
    unfold row_gain, row_hit; now rewrite (Hrank _ _ H).
Qed.

Lemma top_k_row_scale (c : np.score) (row : list np.score) :
  (0 < c)%Q -> top_k_row (scale c row) = top_k_row row.
Proof.
  intros Hc. unfold top_k_row, scale.
  rewrite (@argsort_row_map (Qmult c)); [reflexivity|].
  intros a b. now apply ltb_scale.
Qed.

Lemma hit_rank_scale (c : np.score) (row : list np.score) :
  (0 < c)%Q -> hit_rank (scale c row) = hit_rank row.
Proof. intros Hc. unfold hit_rank. now rewrite top_k_row_scale. Qed.

Lemma scale_row_related (r : nat) (c : np.score) (m : list (list np.score)) :
  Forall2 (fun row row' => row' = row \/ row' = scale c row)
    m (scale_row r c m).
Proof.
  revert r. induction m as [|row m IH]; intros r; simpl; [constructor|].
  destruct r as [|r]; constructor; auto.
  clear IH. induction m; constructor; auto.
Qed.

(** C6. Multiplying every score of one row by the same positive constant
    leaves what that row adds to the Hit Ratio and to the NDCG as it was,
    and so the evaluator returns the same result. *)
Theorem evaluate_model_scaling (n w r : nat) (c : np.score)
  (m : list (list np.score))
  (prediction_batches prediction_batches' : list (list np.score))
  (global_step : Z) :
  score_matrix n w m -> (0 < c)%Q ->
  delivers prediction_batches m ->
  delivers prediction_batches' (scale_row r c m) ->
  (forall row,
     row_hit (scale c row) = row_hit row /\
     row_gain (scale c row) = row_gain row) /\
  evaluate_model prediction_batches' (Z.of_nat n) global_step
  = evaluate_model prediction_batches (Z.of_nat n) global_step.
Proof.
  intros Hm Hc Hd Hd'. split.
  - intros row. unfold row_hit, row_gain.
    now rewrite (hit_rank_scale row Hc).
  - apply (@evaluate_model_related
             (fun row row' => row' = row \/ row' = scale c row)
             n w m (scale_row r c m)); try assumption.
    + intros row row' [->| ->]; [reflexivity|apply length_map].
    + intros row row' [->| ->]; [reflexivity|now apply hit_rank_scale].
    + apply scale_row_related.
Qed.

Lemma evaluate_model_scaling_witness :
  (forall row,
     row_hit (scale (1#2) row) = row_hit row /\
     row_gain (scale (1#2) row) = row_gain row) /\
  evaluate_model [concat (scale_row 1 (1#2) two_users)] 2 7
  = evaluate_model [concat two_users] 2 7.
Proof.
  apply (@evaluate_model_scaling 2 3 1 (1#2) two_users
           [concat two_users] [concat (scale_row 1 (1#2) two_users)] 7).
  - repeat split; try lia. repeat constructor.
  - reflexivity.
  - reflexivity.
  - reflexivity.
Defined.

Lemma filter_length_perm (A : Type) (g : A -> bool) (l l' : list A) :
  Permutation l l' -> length (filter g l) = length (filter g l').
Proof.
  induction 1 as [|v l l' _ IH|u v l|l l' l'' _ IH1 _ IH2]; simpl.
  - reflexivity.
  - destruct (g v); simpl; now rewrite IH.
  - destruct (g u), (g v); reflexivity.
  - now rewrite IH1.
Qed.

Lemma rank0_permuted (row row' : list np.score) :
  negatives_permuted row row' -> rank0 row' = rank0 row.
Proof.
  intros [Hhd Htl]. destruct row as [|v0 rest], row' as [|v0' rest'];
    simpl in *; try discriminate; [reflexivity|].
  injection Hhd as <-. symmetry. now apply filter_length_perm.
Qed.

Lemma hit_rank_permuted (row row' : list np.score) :
  negatives_permuted row row' -> hit_rank row' = hit_rank row.
Proof.
  intros H. pose proof (rank0_permuted H) as Hr.
  destruct H as [Hhd Htl]. destruct row as [|v0 rest], row' as [|v0' rest'];
    simpl in Hhd; try discriminate; [reflexivity|].
  now rewrite !hit_rank_cons, Hr.
Qed.

Lemma length_permuted (row row' : list np.score) :
  negatives_permuted row row' -> length row' = length row.
Proof.
  intros [Hhd Htl]. apply Permutation_length in Htl.
  destruct row, row'; simpl in *; try discriminate; [reflexivity|].
  now rewrite Htl.
Qed.

(** ** The order of a ranking *)

Lemma pair_lt_le (p q : nat * np.score) : pair_lt p q -> (snd p <= snd q)%Q.
Proof.
  intros [H|[H _]]; [now apply Qlt_le_weak|].
  apply Qle_lteq. now right.
Qed.

(** Inserting a pair whose column index is beyond all the sorted ones keeps
    the list sorted. *)
Lemma insert_sorted (p : nat * np.score) (l : list (nat * np.score)) :
  StronglySorted pair_lt l ->
  Forall (fun q => (fst q < fst p)%nat) l ->
  StronglySorted pair_lt (np.insert p l).
Proof.
  induction 1 as [|q l Hl IH Hq]; intros Hidx; simpl.
  - repeat constructor.
  - inversion Hidx as [|? ? Hqp Hidx']; subst.
    destruct (np.ltb (snd p) (snd q)) eqn:E.
    + apply ltb_lt in E. constructor; [now constructor|].
      constructor; [now left|].
      eapply Forall_impl; [|exact Hq]. intros x Hx. left.
      eapply Qlt_le_trans; [exact E|]. now apply pair_lt_le.
    + apply ltb_ge in E. constructor; [now apply IH|].
      apply insert_Forall; [|exact Hq].
      apply Qle_lteq in E. destruct E as [E|E]; [now left|now right].
Qed.

Lemma fold_insert_sorted (vs : list np.score) :
  forall (s : nat) (acc : list (nat * np.score)),
    StronglySorted pair_lt acc ->
    Forall (fun q => (fst q < s)%nat) acc ->
    StronglySorted pair_lt
      (fold_left sort_step (combine (seq s (length vs)) vs) acc).
Proof.
  induction vs as [|v vs IH]; intros s acc Hacc Hidx; simpl; [exact Hacc|].
  apply IH.
  - unfold sort_step. apply insert_sorted; assumption.
  - unfold sort_step. apply insert_Forall; [simpl; lia|].
    eapply Forall_impl; [|exact Hidx]. simpl. intros q Hq. lia.
Qed.

Lemma in_combine_seq (vs : list np.score) :
  forall (s i : nat) (v : np.score),
    In (i, v) (combine (seq s (length vs)) vs) ->
    (s <= i)%nat /\ nth (i - s) vs 0%Q = v.
Proof.
  induction vs as [|u vs IH]; intros s i v; simpl; [contradiction|].
  intros [H|H].
  - injection H as <- <-. rewrite Nat.sub_diag. split; [lia|reflexivity].
  - destruct (IH (S s) i v H) as [Hle Hnth]. split; [lia|].
    replace (i - s)%nat with (S (i - S s)) by lia. exact Hnth.
Qed.

(** A sorted pair still carries the score of its column. *)
Lemma isort_enumerate_score (row : list np.score) (p : nat * np.score) :
  In p (np.isort (np.enumerate row)) -> snd p = score_at row (fst p).
Proof.
  destruct p as [i v]. intros Hp.
  apply (Permutation_in _ (isort_perm (np.enumerate row))) in Hp.
  destruct (in_combine_seq row 0 i v Hp) as [_ Hnth].
  simpl. unfold score_at. now rewrite Nat.sub_0_r in Hnth.
Qed.

Lemma StronglySorted_precedes (R : nat -> nat -> Prop) (l : list nat)
  (a b : nat) :
  StronglySorted R l -> precedes l a b -> R a b.
Proof.
  intros Hs (l1 & l2 & l3 & ->). induction l1 as [|x l1 IH]; simpl in Hs.
  - apply StronglySorted_inv in Hs. destruct Hs as [_ Hall].
    rewrite Forall_forall in Hall. apply Hall. apply in_or_app. right.
    now left.
  - apply StronglySorted_inv in Hs. now apply IH.
Qed.

Lemma StronglySorted_map_in (R : nat * np.score -> nat * np.score -> Prop)
  (R' : nat -> nat -> Prop) (l : list (nat * np.score)) :
  (forall p q, In p l -> In q l -> R p q -> R' (fst p) (fst q)) ->
  StronglySorted R l -> StronglySorted R' (map fst l).
Proof.
  intros HR Hs. induction Hs as [|p l Hl IH Hp]; simpl; constructor.
  - apply IH. intros x y Hx Hy. apply HR; now right.
  - rewrite Forall_forall in *. intros c Hc.
    apply in_map_iff in Hc. destruct Hc as (q & <- & Hq).
    apply HR; [now left|now right|now apply Hp].
Qed.

(** The ascending order [np.argsort] leaves a row in: the reverse of
    [ranked_before]. *)
Lemma argsort_row_sorted (row : list np.score) :
  StronglySorted (fun c1 c2 => ranked_before row c2 c1) (np.argsort_row row).
Proof.
  unfold np.argsort_row.
  apply StronglySorted_map_in with (R := pair_lt).
  - intros p q Hp Hq Hlt. unfold ranked_before.
    rewrite <- (isort_enumerate_score row p Hp).
    rewrite <- (isort_enumerate_score row q Hq). exact Hlt.
  - rewrite isort_fold. apply fold_insert_sorted; constructor.
Qed.

Lemma precedes_rev (l : list nat) (a b : nat) :
  precedes (rev l) a b -> precedes l b a.
Proof.
  intros (l1 & l2 & l3 & H). exists (rev l3), (rev l2), (rev l1).
  rewrite <- (rev_involutive l), H.
  rewrite rev_app_distr. simpl. rewrite rev_app_distr. simpl.
  now rewrite <- !app_assoc.
Qed.

Lemma precedes_skipn (k : nat) (l : list nat) (a b : nat) :
  precedes (skipn k l) a b -> precedes l a b.
Proof.
  intros (l1 & l2 & l3 & H). exists (firstn k l ++ l1), l2, l3.
  rewrite <- (firstn_skipn k l) at 1. rewrite H. now rewrite <- app_assoc.
Qed.

Lemma precedes_across (k : nat) (l : list nat) (a b : nat) :
  In a (firstn k l) -> In b (skipn k l) -> precedes l a b.
Proof.
  intros Ha Hb. apply in_split in Ha. apply in_split in Hb.
  destruct Ha as (f1 & f2 & Hf). destruct Hb as (s1 & s2 & Hs).
  exists f1, (f2 ++ s1), s2.
  rewrite <- (firstn_skipn k l) at 1. rewrite Hf, Hs.
  rewrite <- !app_assoc. reflexivity.
Qed.

(** Columns 0 and 1 score the same, and the evaluator ranks column 1
    first: not the order the specification asks for. The ranking also has
    2 entries, not [_TOP_K]. *)
Lemma ties_not_ascending :
  top_indicies_of [[1#2; 1#2]]%Q = [[1; 0]]%nat /\
  length (top_k_row [1#2; 1#2]%Q) <> _TOP_K /\
  ~ (forall c1 c2,
       precedes (top_k_row [1#2; 1#2]%Q) c1 c2 ->
       spec_ranked_before [1#2; 1#2]%Q c1 c2).
Proof.
  split; [reflexivity|]. split; [discriminate|]. intros H.
  destruct (H 1%nat 0%nat) as [Hlt|[_ Hlt]].
  - exists [], [], []. reflexivity.
  - vm_compute in Hlt. discriminate Hlt.
  - lia.
Qed.

(** ** Any ascending order *)

(** The order [np.argsort_row] gives is one of the ascending orders of the
    row. *)
Lemma argsort_row_ascending (row : list np.score) :
  ascending_order row (np.argsort_row row).
Proof.
  split; [apply argsort_row_perm|].
  eapply StronglySorted_map_in with (R := pair_lt) (l := np.isort _).
  - intros p q Hp Hq Hlt.
    rewrite <- (isort_enumerate_score row p Hp).
    rewrite <- (isort_enumerate_score row q Hq).
    now apply pair_lt_le.
  - rewrite isort_fold. apply fold_insert_sorted; constructor.
Qed.

Lemma filter_all (A : Type) (g : A -> bool) (l : list A) :
  (forall a, In a l -> g a = true) -> filter g l = l.
Proof.
  induction l as [|a l IH]; intros H; simpl; [reflexivity|].
  rewrite (H a) by now left. f_equal. apply IH. intros b Hb. apply H.
  now right.
Qed.

Lemma filter_none (A : Type) (g : A -> bool) (l : list A) :
  (forall a, In a l -> g a = false) -> filter g l = [].
Proof.
  induction l as [|a l IH]; intros H; simpl; [reflexivity|].
  rewrite (H a) by now left. apply IH. intros b Hb. apply H. now right.
Qed.

Lemma filter_columns (h : np.score -> bool) (rest : list np.score) :
  forall s,
    length (filter (fun c => h (nth (c - s) rest 0%Q)) (seq s (length rest)))
    = length (filter h rest).
Proof.
  induction rest as [|v rest IH]; intros s; [reflexivity|].
  assert (Htail : filter (fun c => h (nth (c - s) (v :: rest) 0%Q))
                    (seq (S s) (length rest))
                  = filter (fun c => h (nth (c - S s) rest 0%Q))
                      (seq (S s) (length rest))).
  { apply filter_ext_in. intros c Hc. apply in_seq in Hc.
    replace (c - s)%nat with (S (c - S s)) by lia. reflexivity. }
  cbn [length seq filter]. rewrite Nat.sub_diag, Htail. cbn [nth].
  destruct (h v); cbn [length]; rewrite IH; reflexivity.
Qed.

(** When no other column ties with column 0, its place in the flipped
    last-[k] slice is the same for every ascending order of the row: the
    number of columns that score more, when that is below [k]. *)
Lemma untied_rank_any_order (k : nat) (v0 : np.score)
  (rest : list np.score) (asc : list nat) :
  true_item_untied (v0 :: rest) ->
  ascending_order (v0 :: rest) asc ->
  find_index 0 (rev (np.take_last k asc))
  = if (rank0 (v0 :: rest) <? k)%nat
    then Some (rank0 (v0 :: rest)) else None.
Proof.
  intros Huntied [Hperm Hsorted].
  set (row := v0 :: rest) in *.
  assert (Hnd : NoDup asc).
  { eapply Permutation_NoDup; [symmetry; exact Hperm|apply seq_NoDup]. }
  assert (H0 : In 0%nat asc).
  { apply (Permutation_in _ (Permutation_sym Hperm)). apply in_seq.
    simpl. lia. }
  apply in_split in H0. destruct H0 as (A & B & ->).
  rewrite find_index_take_last by exact Hnd.
  enough (Hlen : length B = rank0 row) by now rewrite Hlen.
  set (g := fun c => Qle_bool v0 (score_at row c)).
  assert (HB : forall c, In c B -> g c = true).
  { intros c Hc. unfold g. apply Qle_bool_iff.
    change v0 with (score_at row 0).
    apply (@StronglySorted_precedes _ (A ++ 0%nat :: B) 0%nat c Hsorted).
    apply in_split in Hc. destruct Hc as (B1 & B2 & ->).
    exists A, B1, B2. reflexivity. }
  assert (HA : forall c, In c A -> g c = false).
  { intros c Hc. unfold g.
    assert (Hle : (score_at row c <= score_at row 0)%Q).
    { apply (@StronglySorted_precedes _ (A ++ 0%nat :: B) c 0%nat Hsorted).
      apply in_split in Hc. destruct Hc as (A1 & A2 & ->).
      exists A1, A2, B. now rewrite <- app_assoc. }
    assert (Hc0 : c <> 0%nat).
    { intros ->. apply NoDup_remove_2 in Hnd. apply Hnd.
      apply in_or_app. now left. }
    assert (Hcw : (c < length row)%nat).
    { assert (Hin : In c (A ++ 0%nat :: B)) by (apply in_or_app; now left).
      apply (Permutation_in _ Hperm) in Hin. apply in_seq in Hin. lia. }
    destruct c as [|c]; [contradiction|].
    unfold score_at in *. simpl in *.
    assert (Hne : ~ (nth c rest 0 == v0)%Q).
    { rewrite Forall_forall in Huntied. apply Huntied. apply nth_In. lia. }
    destruct (Qle_bool v0 (nth c rest 0%Q)) eqn:E; [|reflexivity].
    apply Qle_bool_iff in E. exfalso. apply Hne.
    now apply Qle_antisym. }
  assert (Hrest : Permutation (A ++ B) (seq 1 (length rest))).
  { symmetry. apply Permutation_cons_app_inv with (a := 0%nat).
    symmetry. exact Hperm. }
  rewrite <- (filter_all g B HB).
  replace (filter g B) with (filter g (A ++ B))
    by (rewrite filter_app, (filter_none g A HA); reflexivity).
  rewrite (filter_length_perm g Hrest).
  etransitivity;
    [|exact (filter_columns (fun v => Qle_bool v0 v) rest 1)].
  f_equal. apply filter_ext_in. intros c Hc. apply in_seq in Hc.
  unfold g, score_at. destruct c as [|c]; [lia|].
  simpl. now rewrite Nat.sub_0_r.
Qed.

(** On a row where the true item is untied, every ascending order ranks it
    where [np.argsort_row] does. *)
Lemma untied_hit_rank_any_order (row : list np.score) (asc : list nat) :
  true_item_untied row -> ascending_order row asc ->
  find_index 0 (rev (np.take_last _TOP_K asc)) = hit_rank row.
Proof.
  destruct row as [|v0 rest]; intros Hu Ha.
  - destruct Ha as [Hperm _]. apply Permutation_sym, Permutation_nil in Hperm.
    now subst asc.
  - rewrite hit_rank_cons. now apply untied_rank_any_order.
Qed.

(** ** The hit positions *)

Lemma top_k_row_length (row : list np.score) :
  length (top_k_row row) = Nat.min _TOP_K (length row).
Proof.
  unfold top_k_row, np.take_last.
  rewrite length_rev, length_skipn, argsort_row_length. lia.
Qed.

Lemma find_index_lt (x : nat) (l : list nat) (r : nat) :
  find_index x l = Some r -> (r < length l)%nat.
Proof.
  revert r. induction l as [|y l IH]; intros r; simpl; [discriminate|].
  destruct (Nat.eqb y x).
  - intros H. injection H as <-. lia.
  - destruct (find_index x l) as [r'|]; simpl; [|discriminate].
    intros H. injection H as <-. specialize (IH r' eq_refl). lia.
Qed.

(** What [hit_indicies_of] returns comes from a matrix of [num_users]
    rows. *)
Lemma hit_indicies_of_Return (prediction_batches : list (list np.score))
  (num_users : Z) (hits : list (nat * nat)) :
  hit_indicies_of prediction_batches num_users = Return hits ->
  exists w m,
    (0 < num_users)%Z /\ matrix (Z.to_nat num_users) w m /\
    hits = np.argwhere_from 0 (np.equal (map top_k_row m) 0).
Proof.
  unfold hit_indicies_of. intros H.
  destruct (np.concatenate prediction_batches) as [e|flat]; simpl in H;
    [discriminate|].
  destruct (np.reshape flat num_users) as [e|m] eqn:E; simpl in H;
    [discriminate|].
  injection H as <-. destruct (reshape_Return _ _ E) as (Hn & Hm & _).
  eexists. exists m. rewrite top_indicies_of_rows. repeat split.
  - exact Hn.
  - apply Hm.
  - apply Hm.
Qed.

(** The hits of the rows numbered from [i] on: one per row at most, in row
    order, each at a position of the top-K ranking. *)
Lemma argwhere_from_shape (m : list (list np.score)) :
  forall i,
    let hits := np.argwhere_from i (np.equal (map top_k_row m) 0) in
    StronglySorted lt (map fst hits) /\
    Forall (fun hit => (i <= fst hit < i + length m)%nat /\
                       (snd hit < _TOP_K)%nat) hits.
Proof.
  induction m as [|row m IH]; intros i; simpl.
  - split; constructor.
  - destruct (IH (S i)) as [IHs IHf].
    rewrite argwhere_row_find by apply top_k_row_NoDup.
    assert (IHf' : Forall
              (fun hit => (i <= fst hit < i + S (length m))%nat /\
                          (snd hit < _TOP_K)%nat)
              (np.argwhere_from (S i) (np.equal (map top_k_row m) 0))).
    { eapply Forall_impl; [|exact IHf]. simpl. intros hit. lia. }
    destruct (find_index 0 (top_k_row row)) as [r|] eqn:E; simpl.
    + split.
      * constructor; [exact IHs|]. rewrite Forall_map.
        eapply Forall_impl; [|exact IHf]. simpl. intros hit. lia.
      * constructor; [|exact IHf']. simpl.
        apply find_index_lt in E. rewrite top_k_row_length in E. lia.
    + split; assumption.
Qed.

Lemma StronglySorted_lt_length (l : list nat) (lo hi : nat) :
  StronglySorted lt l -> Forall (fun x => (lo <= x < hi)%nat) l ->
  (length l <= hi - lo)%nat.
Proof.
  intros Hs. revert lo. induction Hs as [|x l _ IH Hx]; intros lo Hb; simpl.
  - lia.
  - inversion Hb as [|? ? Hxb Hb']; subst.
    assert (Hb'' : Forall (fun y => (S x <= y < hi)%nat) l).
    { rewrite Forall_forall in *. intros y Hy.
      specialize (Hx y Hy). specialize (Hb' y Hy). lia. }
    specialize (IH (S x) Hb''). lia.
Qed.

(** X1. As the comment in the source has it: the evaluator never finds
    more hits than there are users. *)
Theorem hit_indicies_at_most_num_users
  (prediction_batches : list (list np.score)) (num_users : Z)
  (hits : list (nat * nat)) :
  hit_indicies_of prediction_batches num_users = Return hits ->
  (Z.of_nat (length hits) <= num_users)%Z.
Proof.
  intros H. destruct (hit_indicies_of_Return _ _ H) as (w & m & Hn & Hm & ->).
  destruct (argwhere_from_shape m 0) as [Hs Hf]. simpl in Hs, Hf.
  assert (Hlen : (length (map fst
                    (np.argwhere_from 0 (np.equal (map top_k_row m) 0)))
                  <= length m - 0)%nat).
  { apply StronglySorted_lt_length; [exact Hs|]. rewrite Forall_map.
    eapply Forall_impl; [|exact Hf]. simpl. intros hit. lia. }
  rewrite length_map in Hlen. destruct Hm as [Hrows _]. lia.
Qed.

Lemma hit_indicies_at_most_num_users_witness :
  (Z.of_nat (length [(0, 0); (1, 1)]%nat) <= 2)%Z.
Proof.
  apply (@hit_indicies_at_most_num_users [concat two_users] 2).
  reflexivity.
Defined.

(** X2. Every hit the evaluator finds is a pair of a user below
    [num_users] and a rank below [_TOP_K]; the hits come in strictly
    increasing user order, so no user is counted twice. *)
Theorem hit_indicies_shape
  (prediction_batches : list (list np.score)) (num_users : Z)
  (hits : list (nat * nat)) :
  hit_indicies_of prediction_batches num_users = Return hits ->
  StronglySorted lt (map fst hits) /\
  Forall (fun hit => (Z.of_nat (fst hit) < num_users)%Z /\
                     (snd hit < _TOP_K)%nat) hits.
Proof.
  intros H. destruct (hit_indicies_of_Return _ _ H) as (w & m & Hn & Hm & ->).
  destruct (argwhere_from_shape m 0) as [Hs Hf]. simpl in Hs, Hf.
  split; [exact Hs|]. destruct Hm as [Hrows _].
  eapply Forall_impl; [|exact Hf]. simpl. intros hit. lia.
Qed.

Lemma hit_indicies_shape_witness :
  StronglySorted lt (map fst [(0, 0); (1, 1)]%nat) /\
  Forall (fun hit => (Z.of_nat (fst hit) < 2)%Z /\ (snd hit < _TOP_K)%nat)
    [(0, 0); (1, 1)]%nat.
Proof.
  apply (@hit_indicies_shape [concat two_users] 2).
  reflexivity.
Defined.

(** ** The metrics from counts *)

Lemma row_hit_by_count (row : list np.score) :
  row <> [] -> row_hit row = if hit_by_count row then 1%R else 0%R.
Proof.
  destruct row as [|v0 rest]; [contradiction|]. intros _.
  unfold row_hit, hit_by_count. rewrite hit_rank_cons.
  now destruct (rank0 (v0 :: rest) <? _TOP_K)%nat.
Qed.

Lemma row_gain_by_count (row : list np.score) :
  row <> [] -> row_gain row = gain_by_count row.
Proof.
  destruct row as [|v0 rest]; [contradiction|]. intros _.
  unfold row_gain, gain_by_count, hit_by_count. rewrite hit_rank_cons.
  now destruct (rank0 (v0 :: rest) <? _TOP_K)%nat.
Qed.

Lemma score_matrix_rows (n w : nat) (m : list (list np.score)) :
  score_matrix n w m -> Forall (fun row => row <> []) m.
Proof.
  intros (_ & Hw & _ & Hrows). eapply Forall_impl; [|exact Hrows].
  intros row Hlen ->. simpl in Hlen. lia.
Qed.

Lemma hit_rows_by_count (m : list (list np.score)) :
  Forall (fun row => row <> []) m ->
  hit_rows m = length (filter hit_by_count m).
Proof.
  intros Hne. unfold hit_rows. f_equal. apply filter_ext_in.
  intros row Hrow. rewrite Forall_forall in Hne. specialize (Hne row Hrow).
  destruct row as [|v0 rest]; [contradiction|].
  rewrite find_index_existsb. fold (hit_rank (v0 :: rest)).
  rewrite hit_rank_cons. unfold hit_by_count.
  now destruct (rank0 (v0 :: rest) <? _TOP_K)%nat.
Qed.

Lemma gain_antitone (r r' : nat) :
  (r <= r')%nat ->
  (ln 2 / ln (INR r' + 2) <= ln 2 / ln (INR r + 2))%R.
Proof.
  intros Hle. pose proof ln_2_pos as H2.
  pose proof (pos_INR r) as Hr. apply le_INR in Hle.
  assert (Hln : (ln (INR r + 2) <= ln (INR r' + 2))%R).
  { destruct (Req_dec (INR r) (INR r')) as [->|Hne]; [lra|].
    left. apply ln_increasing; lra. }
  assert (Hpos : (0 < ln (INR r + 2))%R).
  { destruct (Req_dec (INR r) 0) as [->|Hne].
    - now rewrite Rplus_0_l.
    - apply Rlt_trans with (ln 2); [exact H2|]. apply ln_increasing; lra. }
  unfold Rdiv. apply Rmult_le_compat_l; [lra|].
  apply Rinv_le_contravar; assumption.
Qed.

(** ** What the evaluator does not depend on *)

(** X6. How the predictions are cut into batches does not matter: two
    nonempty sequences of batches with the same concatenation give the
    same result, or the same exception. *)
Theorem evaluate_model_batching
  (prediction_batches prediction_batches' : list (list np.score))
  (num_users global_step : Z) :
  prediction_batches <> [] -> prediction_batches' <> [] ->
  concat prediction_batches = concat prediction_batches' ->
  evaluate_model prediction_batches' num_users global_step
  = evaluate_model prediction_batches num_users global_step.
Proof.
  intros Hne Hne' Heq. unfold evaluate_model.
  destruct prediction_batches as [|b bs]; [contradiction|].
  destruct prediction_batches' as [|b' bs']; [contradiction|].
  unfold np.concatenate. now rewrite Heq.
Qed.

Lemma evaluate_model_batching_witness :
  evaluate_model [[9#10; 1#10]; [1#20; 1#10; 9#10; 1#20]]%Q 2 7
  = evaluate_model two_users 2 7.
Proof.
  apply (@evaluate_model_batching two_users
           [[9#10; 1#10]; [1#20; 1#10; 9#10; 1#20]]%Q 2 7).
  - discriminate.
  - discriminate.
  - reflexivity.
Defined.

Lemma rows_of_map (f : np.score -> np.score) (n w : nat)
  (a : list np.score) :
  np.rows_of n w (map f a) = map (map f) (np.rows_of n w a).
Proof.
  revert a. induction n as [|n IH]; intros a; simpl; [reflexivity|].
  now rewrite firstn_map, skipn_map, IH.
Qed.

Lemma reshape_map (f : np.score -> np.score) (a : list np.score) (n : Z) :
  np.reshape (map f a) n
  = match np.reshape a n with
    | Raise e => Raise e
    | Return m => Return (map (map f) m)
    end.
Proof.
  unfold np.reshape. rewrite length_map.
  destruct (n <? 0)%Z; [reflexivity|].
  destruct ((n =? 0)%Z || negb (Z.of_nat (length a) mod n =? 0)%Z);
    [reflexivity|].
  now rewrite rows_of_map.
Qed.

Lemma top_indicies_of_map (f : np.score -> np.score)
  (m : list (list np.score)) :
  (forall a b, np.ltb (f a) (f b) = np.ltb a b) ->
  top_indicies_of (map (map f) m) = top_indicies_of m.
Proof.
  intros Hf. rewrite !top_indicies_of_rows, map_map.
  apply map_ext. intros row. unfold top_k_row.
  now rewrite (@argsort_row_map f Hf row).
Qed.

Lemma ltb_order_preserving (f : np.score -> np.score) :
  (forall a b, (a < b)%Q <-> (f a < f b)%Q) ->
  forall a b, np.ltb (f a) (f b) = np.ltb a b.
Proof.
  intros Hf a b. destruct (np.ltb a b) eqn:E.
  - apply (proj2 (ltb_lt _ _)). apply (proj1 (Hf a b)).
    exact (proj1 (ltb_lt _ _) E).
  - destruct (np.ltb (f a) (f b)) eqn:E'; [|reflexivity].
    apply (proj1 (ltb_lt _ _)) in E'. apply (proj2 (Hf a b)) in E'.
    apply (proj2 (ltb_lt _ _)) in E'. congruence.
Qed.

(** X7. The result depends on the scores only through their order:
    mapping every score by a function that keeps the order (logits
    instead of probabilities, say) changes neither the result nor the
    exception. *)
Theorem evaluate_model_order_preserving (f : np.score -> np.score)
  (prediction_batches : list (list np.score)) (num_users global_step : Z) :
  (forall a b, (a < b)%Q <-> (f a < f b)%Q) ->
  evaluate_model (map_scores f prediction_batches) num_users global_step
  = evaluate_model prediction_batches num_users global_step.
Proof.
  intros Hf. unfold evaluate_model, map_scores.
  destruct prediction_batches as [|b bs]; [reflexivity|].
  cbn [np.concatenate map bind]. rewrite <- map_cons, <- concat_map.
  rewrite reshape_map.
  destruct (np.reshape (concat (b :: bs)) num_users) as [e|m];
    [reflexivity|].
  cbn [bind].
  now rewrite (@top_indicies_of_map f m (ltb_order_preserving f Hf)).
Qed.

Lemma evaluate_model_order_preserving_witness :
  evaluate_model (map_scores (fun x => x + 1)%Q two_users) 2 7
  = evaluate_model two_users 2 7.
Proof.
  apply (@evaluate_model_order_preserving (fun x => x + 1)%Q two_users 2 7).
  intros a b. split; intros H.
  - apply Qplus_lt_l. exact H.
  - apply Qplus_lt_l in H. exact H.
Defined.

Lemma total_perm (f : list np.score -> R) (m m' : list (list np.score)) :
  Permutation m m' -> total f m = total f m'.
Proof.
  unfold total.
  induction 1 as [|row m m' _ IH|r1 r2 m|m m' m'' _ IH1 _ IH2]; simpl.
  - reflexivity.
  - now rewrite IH.
  - lra.
  - now rewrite IH1.
Qed.

(** ** Better and worse scores *)

Lemma filter_length_impl (A : Type) (g h : A -> bool) (l : list A) :
  (forall a, g a = true -> h a = true) ->
  (length (filter g l) <= length (filter h l))%nat.
Proof.
  intros Himp. induction l as [|a l IH]; simpl; [lia|].
  destruct (g a) eqn:E.
  - rewrite (Himp a E). simpl. lia.
  - destruct (h a); simpl; lia.
Qed.

(** A row where fewer columns outrank the true item adds at least as much
    to both sums. *)
Lemma row_outranked_less (row row' : list np.score) :
  row <> [] -> row' <> [] -> (rank0 row' <= rank0 row)%nat ->
  (row_hit row <= row_hit row')%R /\ (row_gain row <= row_gain row')%R.
Proof.
  intros Hne Hne' Hle.
  rewrite (row_hit_by_count Hne), (row_hit_by_count Hne').
  rewrite (row_gain_by_count Hne), (row_gain_by_count Hne').
  unfold gain_by_count, hit_by_count.
  destruct (Nat.ltb_spec (rank0 row) _TOP_K) as [Hin|Hout];
    destruct (Nat.ltb_spec (rank0 row') _TOP_K) as [Hin'|Hout'];
    try lia.
  - split; [lra|]. now apply gain_antitone.
  - split; [lra|]. pose proof (gain_bounds (rank0 row')). lra.
  - split; lra.
Qed.

Lemma total_Forall2_le (f : list np.score -> R)
  (m m' : list (list np.score)) :
  Forall2 (fun row row' => (f row <= f row')%R) m m' ->
  (total f m <= total f m')%R.
Proof.
  unfold total. induction 1 as [|row row' m m' H _ IH]; simpl; lra.
Qed.

(** Two score matrices of as many rows, the rows of the second outranked
    no more than those of the first: the second has the higher metrics. *)
Lemma evaluate_model_outranked_less (n w w' : nat)
  (m m' : list (list np.score))
  (prediction_batches prediction_batches' : list (list np.score))
  (global_step : Z) :
  score_matrix n w m -> score_matrix n w' m' ->
  Forall2 (fun row row' => (rank0 row' <= rank0 row)%nat) m m' ->
  delivers prediction_batches m -> delivers prediction_batches' m' ->
  exists res res',
    evaluate_model prediction_batches (Z.of_nat n) global_step = Return res /\
    evaluate_model prediction_batches' (Z.of_nat n) global_step
    = Return res' /\
    (HR res <= HR res')%R /\ (NDCG res <= NDCG res')%R.
Proof.
  intros Hm Hm' Hle Hd Hd'. eexists. eexists.
  split; [apply (evaluate_model_score_matrix global_step Hm Hd)|].
  split; [apply (evaluate_model_score_matrix global_step Hm' Hd')|].
  cbn [HR NDCG]. pose proof (score_matrix_rows Hm) as Hne.
  pose proof (score_matrix_rows Hm') as Hne'.
  assert (Hrows : Forall2 (fun row row' =>
                    (row_hit row <= row_hit row')%R /\
                    (row_gain row <= row_gain row')%R) m m').
  { clear Hm Hm' Hd Hd'.
    induction Hle as [|row row' m m' H _ IH]; [constructor|].
    inversion Hne; inversion Hne'; subst.
    constructor; [now apply row_outranked_less|now apply IH]. }
  destruct Hm as (Hn & _).
  assert (Hpos : (0 < INR n)%R) by (apply lt_0_INR; lia).
  split; apply div_le; try exact Hpos; apply total_Forall2_le;
    (eapply Forall2_impl; [|exact Hrows]); intros row row' [H1 H2];
    assumption.
Qed.

Lemma rank0_raised (row row' : list np.score) :
  true_item_raised row row' -> (rank0 row' <= rank0 row)%nat.
Proof.
  destruct row as [|v0 rest], row' as [|v0' rest']; simpl; try contradiction.
  intros [-> Hle]. apply filter_length_impl. intros v Hv.
  apply Qle_bool_iff. apply Qle_bool_iff in Hv.
  eapply Qle_trans; eassumption.
Qed.

Lemma length_raised (row row' : list np.score) :
  true_item_raised row row' -> length row' = length row.
Proof.
  destruct row as [|v0 rest], row' as [|v0' rest']; simpl; try contradiction.
  now intros [-> _].
Qed.

(** X9. A better score for the true item never hurts: when in some rows
    the score of column 0 is raised and nothing else changes, neither the
    Hit Ratio nor the NDCG goes down. *)
Theorem evaluate_model_true_item_raised (n w : nat)
  (m m' : list (list np.score))
  (prediction_batches prediction_batches' : list (list np.score))
  (global_step : Z) :
  score_matrix n w m -> Forall2 true_item_raised m m' ->
  delivers prediction_batches m -> delivers prediction_batches' m' ->
  exists res res',
    evaluate_model prediction_batches (Z.of_nat n) global_step = Return res /\
    evaluate_model prediction_batches' (Z.of_nat n) global_step
    = Return res' /\
    (HR res <= HR res')%R /\ (NDCG res <= NDCG res')%R.
Proof.
  intros Hm Hraised Hd Hd'.
  apply (@evaluate_model_outranked_less n w w m m'); try assumption.
  - destruct Hm as (Hn & Hw & Hm). repeat split; try assumption;
      apply (Forall2_matrix length_raised Hraised Hm).
  - eapply Forall2_impl; [|exact Hraised]. apply rank0_raised.
Qed.

Lemma evaluate_model_true_item_raised_witness :
  exists res res',
    evaluate_model two_users 2 7 = Return res /\
    evaluate_model [[9#10; 1#10; 1#20]; [1; 9#10; 1#20]]%Q 2 7
    = Return res' /\
    (HR res <= HR res')%R /\ (NDCG res <= NDCG res')%R.
Proof.
  apply (@evaluate_model_true_item_raised 2 3 two_users
           [[9#10; 1#10; 1#20]; [1; 9#10; 1#20]]%Q two_users
           [[9#10; 1#10; 1#20]; [1; 9#10; 1#20]]%Q 7).
  - repeat split; try lia. repeat constructor.
  - repeat constructor; discriminate.
  - reflexivity.
  - reflexivity.
Defined.

Lemma rank0_added (row row' : list np.score) :
  row <> [] -> negatives_added row row' -> (rank0 row <= rank0 row')%nat.
Proof.
  intros Hne [extra ->]. destruct row as [|v0 rest]; [contradiction|].
  simpl. rewrite filter_app, length_app. unfold np.score. lia.
Qed.

(** ** The training and evaluation cycle *)

Example run_ncf_two_cycles :
  run_ncf counting_run
    {| train_epochs := 2; epochs_between_evals := 1; hr_threshold := None |}
    2 0%nat
  = Finished (2%nat, [two_users_results 1; two_users_results 2]).
Proof. reflexivity. Qed.

Example run_ncf_stops_early :
  run_ncf stopping_run
    {| train_epochs := 5; epochs_between_evals := 1; hr_threshold := None |}
    2 0%nat
  = Finished (1%nat, [two_users_results 1]).
Proof. reflexivity. Qed.

Section Cycle.

Variable C : collaborators.
Variable FLAGS : flags.
Variable num_users : Z.

Lemma trained_succ (i : nat) (est : estimator C) :
  trained C i (@train C est) = trained C (S i) est.
Proof. unfold trained. symmetry. apply Nat.iter_succ_r. Qed.

Lemma evaluation_after_succ (est : estimator C) (i : nat) :
  evaluation_after C num_users (@train C est) i
  = evaluation_after C num_users est (S i).
Proof. unfold evaluation_after. now rewrite trained_succ. Qed.

(** What the loop adds to the log: one evaluation per training call, in
    order; none but the last past the threshold; and the last one is past
    it when iterations were left over. *)
Lemma training_cycles_Finished (cycles : nat) :
  forall (est est' : estimator C) (logged logged' : list eval_results),
    training_cycles C FLAGS num_users cycles est logged
    = Finished (est', logged') ->
    exists new,
      logged' = logged ++ new /\
      (length new <= cycles)%nat /\
      est' = trained C (length new) est /\
      map (evaluation_after C num_users est) (seq 1 (length new))
      = map Return new /\
      Forall (fun r => @past_stop_threshold C (hr_threshold FLAGS) (HR r)
                       = false) (removelast new) /\
      ((length new < cycles)%nat ->
       exists init r,
         new = init ++ [r] /\
         @past_stop_threshold C (hr_threshold FLAGS) (HR r) = true).
Proof.
  induction cycles as [|cycles IH]; intros est est' logged logged' H;
    simpl in H.
  - injection H as <- <-. exists []. rewrite app_nil_r.
    repeat split; try reflexivity; try constructor. simpl. lia.
  - destruct (evaluate_model (@predict C (@train C est)) num_users
                (@get_variable_value C (@train C est))) as [e|r] eqn:E;
      [discriminate|].
    destruct (@past_stop_threshold C (hr_threshold FLAGS) (HR r)) eqn:P.
    + injection H as <- <-. exists [r]. repeat split.
      * simpl. lia.
      * simpl. unfold evaluation_after, trained. simpl. now rewrite E.
      * constructor.
      * intros _. exists [], r. split; [reflexivity|exact P].
    + destruct (IH _ _ _ _ H)
        as (new & Hlog & Hlen & Hest & Hmap & Hnot & Hlast).
      exists (r :: new). repeat split.
      * rewrite Hlog, <- app_assoc. reflexivity.
      * simpl. lia.
      * rewrite Hest. simpl length. apply trained_succ.
      * simpl length. rewrite <- cons_seq. simpl map. f_equal.
        -- unfold evaluation_after, trained. simpl. exact E.
        -- rewrite <- seq_shift, map_map. rewrite <- Hmap.
           apply map_ext. intros i. symmetry.
           apply evaluation_after_succ.
      * destruct new as [|r' new]; [constructor|].
        change (removelast (r :: r' :: new))
          with (r :: removelast (r' :: new)).
        constructor; assumption.
      * intros Hlt. destruct Hlast as (init & r0 & Hnew & Hpast);
          [simpl in Hlt; lia|].
        exists (r :: init), r0. split; [now rewrite Hnew|exact Hpast].
Qed.

Lemma run_ncf_Finished (est est' : estimator C)
  (logged : list eval_results) :
  run_ncf C FLAGS num_users est = Finished (est', logged) ->
  epochs_between_evals FLAGS <> 0%Z /\
  training_cycles C FLAGS num_users
    (Z.to_nat (train_epochs FLAGS / epochs_between_evals FLAGS)) est []
  = Finished (est', logged).
Proof.
  unfold run_ncf.
  destruct (Z.eqb_spec (epochs_between_evals FLAGS) 0); [discriminate|].
  intros H. split; assumption.
Qed.

End Cycle.

(** X11. When the cycle of [run_ncf] finishes, the log holds exactly one
    evaluation per call of [train], in order: the i-th entry is what
    [evaluate_model] returns on the estimator after i training calls. The
    number of training calls is at most
    [train_epochs // epochs_between_evals], and the final estimator is the
    one the last logged evaluation was made on. *)
Theorem run_ncf_log (C : collaborators) (FLAGS : flags) (num_users : Z)
  (est est' : estimator C) (logged : list eval_results) :
  run_ncf C FLAGS num_users est = Finished (est', logged) ->
  (length logged
   <= Z.to_nat (train_epochs FLAGS / epochs_between_evals FLAGS))%nat /\
  est' = trained C (length logged) est /\
  map (evaluation_after C num_users est) (seq 1 (length logged))
  = map Return logged.
Proof.
  intros H. apply run_ncf_Finished in H. destruct H as [_ H].
  destruct (@training_cycles_Finished C FLAGS num_users _ _ _ _ _ H)
    as (new & Hlog & Hlen & Hest & Hmap & _).
  simpl in Hlog. subst logged. repeat split; assumption.
Qed.

Lemma run_ncf_log_witness :
  (length [two_users_results 1; two_users_results 2] <= Z.to_nat (2 / 1))%nat /\
  2%nat = trained counting_run
            (length [two_users_results 1; two_users_results 2]) 0%nat /\
  map (evaluation_after counting_run 2 0%nat)
    (seq 1 (length [two_users_results 1; two_users_results 2]))
  = map Return [two_users_results 1; two_users_results 2].
Proof.
  apply (@run_ncf_log counting_run
           {| train_epochs := 2; epochs_between_evals := 1;
              hr_threshold := None |} 2 0%nat 2%nat
           [two_users_results 1; two_users_results 2]).
  reflexivity.
Defined.

(** X12. The cycle stops at the first evaluation whose Hit Ratio is past
    the threshold: no logged evaluation but the last is past it, and when
    fewer cycles ran than [train_epochs // epochs_between_evals] the last
    one is. *)
Theorem run_ncf_early_stop (C : collaborators) (FLAGS : flags)
  (num_users : Z) (est est' : estimator C) (logged : list eval_results) :
  run_ncf C FLAGS num_users est = Finished (est', logged) ->
  Forall (fun r => @past_stop_threshold C (hr_threshold FLAGS) (HR r)
                   = false) (removelast logged) /\
  ((length logged
    < Z.to_nat (train_epochs FLAGS / epochs_between_evals FLAGS))%nat ->
   exists init r,
     logged = init ++ [r] /\
     @past_stop_threshold C (hr_threshold FLAGS) (HR r) = true).
Proof.
  intros H. apply run_ncf_Finished in H. destruct H as [_ H].
  destruct (@training_cycles_Finished C FLAGS num_users _ _ _ _ _ H)
    as (new & Hlog & _ & _ & _ & Hnot & Hlast).
  simpl in Hlog. subst logged. split; assumption.
Qed.

Lemma run_ncf_early_stop_witness :
  Forall (fun r => @past_stop_threshold stopping_run None (HR r) = false)
    (removelast [two_users_results 1]) /\
  ((length [two_users_results 1] < Z.to_nat (5 / 1))%nat ->
   exists init r,
     [two_users_results 1] = init ++ [r] /\
     @past_stop_threshold stopping_run None (HR r) = true).
Proof.
  apply (@run_ncf_early_stop stopping_run
           {| train_epochs := 5; epochs_between_evals := 1;
              hr_threshold := None |} 2 0%nat 1%nat
           [two_users_results 1]).
  reflexivity.
Defined.

(** X13. Each call of [train] runs [epochs_between_evals] epochs, so the
    epochs trained never exceed [train_epochs] rounded down to a multiple
    of [epochs_between_evals]: the remainder is never trained. *)
Theorem run_ncf_epoch_budget (C : collaborators) (FLAGS : flags)
  (num_users : Z) (est est' : estimator C) (logged : list eval_results) :
  (0 < epochs_between_evals FLAGS)%Z -> (0 <= train_epochs FLAGS)%Z ->
  run_ncf C FLAGS num_users est = Finished (est', logged) ->
  est' = trained C (length logged) est /\
  (Z.of_nat (length logged) * epochs_between_evals FLAGS
   <= train_epochs FLAGS
      - train_epochs FLAGS mod epochs_between_evals FLAGS)%Z.
Proof.
  intros Hebe Hte H. apply run_ncf_Finished in H. destruct H as [_ H].
  destruct (@training_cycles_Finished C FLAGS num_users _ _ _ _ _ H)
    as (new & Hlog & Hlen & Hest & _).
  simpl in Hlog. subst logged. split; [exact Hest|].
  pose proof (Z.div_pos _ _ Hte Hebe) as Hq.
  pose proof (Z.div_mod (train_epochs FLAGS) (epochs_between_evals FLAGS))
    as Hdm.
  assert (Hle : (Z.of_nat (length new)
                 <= train_epochs FLAGS / epochs_between_evals FLAGS)%Z)
    by lia.
  nia.
Qed.

Lemma run_ncf_epoch_budget_witness :
  1%nat = trained stopping_run (length [two_users_results 1]) 0%nat /\
  (Z.of_nat (length [two_users_results 1]) * 2 <= 5 - 5 mod 2)%Z.
Proof.
  apply (@run_ncf_epoch_budget stopping_run
           {| train_epochs := 5; epochs_between_evals := 2;
              hr_threshold := None |} 2 0%nat 1%nat
           [two_users_results 1]).
  - reflexivity.
  - discriminate.
  - reflexivity.
Defined.

Lemma training_cycles_complete (C : collaborators) (FLAGS : flags)
  (num_users : Z) (cycles : nat) :
  (forall hr, @past_stop_threshold C (hr_threshold FLAGS) hr = false) ->
  forall (est : estimator C) (logged : list eval_results),
    (forall i, (1 <= i <= cycles)%nat ->
               exists r, evaluation_after C num_users est i = Return r) ->
    exists new,
      training_cycles C FLAGS num_users cycles est logged
      = Finished (trained C cycles est, logged ++ new) /\
      length new = cycles.
Proof.
  intros Hnever. induction cycles as [|cycles IH]; intros est logged Hret.
  - exists []. rewrite app_nil_r. split; reflexivity.
  - destruct (Hret 1%nat) as [r Hr]; [lia|].
    unfold evaluation_after, trained in Hr. simpl in Hr.
    simpl. rewrite Hr, Hnever.
    destruct (IH (@train C est) (logged ++ [r])) as (new & Hrun & Hlen).
    { intros i Hi. rewrite evaluation_after_succ. apply Hret. lia. }
    exists (r :: new). rewrite Hrun, trained_succ, <- app_assoc.
    split; [reflexivity|]. simpl. now rewrite Hlen.
Qed.

(** X14. When the threshold is never passed and every evaluation returns,
    the cycle runs all [train_epochs // epochs_between_evals] training
    calls and logs as many evaluations. *)
Theorem run_ncf_complete (C : collaborators) (FLAGS : flags)
  (num_users : Z) (est : estimator C) :
  epochs_between_evals FLAGS <> 0%Z ->
  (forall hr, @past_stop_threshold C (hr_threshold FLAGS) hr = false) ->
  (forall i,
     (1 <= i
      <= Z.to_nat (train_epochs FLAGS / epochs_between_evals FLAGS))%nat ->
     exists r, evaluation_after C num_users est i = Return r) ->
  exists logged,
    run_ncf C FLAGS num_users est
    = Finished
        (trained C
           (Z.to_nat (train_epochs FLAGS / epochs_between_evals FLAGS)) est,
         logged) /\
    length logged
    = Z.to_nat (train_epochs FLAGS / epochs_between_evals FLAGS).
Proof.
  intros Hebe Hnever Hret. unfold run_ncf.
  destruct (Z.eqb_spec (epochs_between_evals FLAGS) 0); [contradiction|].
  destruct (@training_cycles_complete C FLAGS num_users _ Hnever est [] Hret)
    as (new & Hrun & Hlen).
  exists new. split; assumption.
Qed.

Lemma run_ncf_complete_witness :
  exists logged,
    run_ncf counting_run
      {| train_epochs := 2; epochs_between_evals := 1;
         hr_threshold := None |} 2 0%nat
    = Finished (trained counting_run (Z.to_nat (2 / 1)) 0%nat, logged) /\
    length logged = Z.to_nat (2 / 1).
Proof.
  apply (@run_ncf_complete counting_run
           {| train_epochs := 2; epochs_between_evals := 1;
              hr_threshold := None |} 2 0%nat).
  - discriminate.
  - reflexivity.
  - intros i _. eexists. reflexivity.
Defined.

(** X16. When [train_epochs] is smaller than a positive
    [epochs_between_evals], the cycle does nothing: the estimator is never
    trained and nothing is evaluated or logged. *)
Theorem run_ncf_no_cycle (C : collaborators) (FLAGS : flags)
  (num_users : Z) (est : estimator C) :
  (0 < epochs_between_evals FLAGS)%Z ->
  (train_epochs FLAGS < epochs_between_evals FLAGS)%Z ->
  run_ncf C FLAGS num_users est = Finished (est, []).
Proof.
  intros Hebe Hlt. unfold run_ncf.
  destruct (Z.eqb_spec (epochs_between_evals FLAGS) 0); [lia|].
  assert (Hq : (train_epochs FLAGS / epochs_between_evals FLAGS < 1)%Z).
  { apply Z.div_lt_upper_bound; lia. }
  replace (Z.to_nat (train_epochs FLAGS / epochs_between_evals FLAGS))
    with 0%nat by lia.
  reflexivity.
Qed.

Lemma run_ncf_no_cycle_witness :
  run_ncf counting_run
    {| train_epochs := 2; epochs_between_evals := 3; hr_threshold := None |}
    2 0%nat
  = Finished (0%nat, []).
Proof.
  apply (@run_ncf_no_cycle counting_run
           {| train_epochs := 2; epochs_between_evals := 3;
              hr_threshold := None |} 2 0%nat).
  - reflexivity.
  - reflexivity.
Defined.

(** ** NumPy's default sort on rows with equal scores *)

(** Eighteen equal scores: the partition of the introsort leaves the
    columns 1 to 8 in front of the higher ones. *)
Example aquicksort_equal_scores :
  top_k_with npysort.aquicksort
    [5; 5; 5; 5; 5; 5; 5; 5; 5; 5; 5; 5; 5; 5; 5; 5; 5; 5]%Q
  = [17; 16; 1; 2; 3; 4; 5; 6; 7; 8]%nat.
Proof. vm_compute. reflexivity. Qed.

(** Up to 17 columns the introsort is the insertion sort. *)
Example aquicksort_short_row :
  npysort.aquicksort [5; 5; 5; 5; 5; 5; 5; 5; 5; 5; 5; 5; 5; 5; 5; 5; 5]%Q
  = np.argsort_row [5; 5; 5; 5; 5; 5; 5; 5; 5; 5; 5; 5; 5; 5; 5; 5; 5]%Q.
Proof. vm_compute. reflexivity. Qed.

Example aquicksort_two_users :
  map npysort.aquicksort two_users = map np.argsort_row two_users.
Proof. vm_compute. reflexivity. Qed.

(** ** The evaluator for any sort *)

Lemma evaluate_model_is_with :
  evaluate_model = evaluate_model_with np.argsort_row.
Proof. reflexivity. Qed.

Lemma evaluate_model_with_hit_indicies
  (argsort_row : list np.score -> list nat)
  (prediction_batches : list (list np.score)) (num_users global_step : Z) :
  evaluate_model_with argsort_row prediction_batches num_users global_step
  = hit_indicies <-
      hit_indicies_with argsort_row prediction_batches num_users ;;
    Return {| HR := (INR (length hit_indicies) / IZR num_users)%R;
              NDCG := (np.sum (gains hit_indicies) / IZR num_users)%R;
              GLOBAL_STEP := global_step |}.
Proof.
  unfold evaluate_model_with, hit_indicies_with.
  destruct (np.concatenate prediction_batches) as [e|flat]; simpl;
    [reflexivity|].
  destruct (np.reshape flat num_users) as [e|m]; reflexivity.
Qed.

Lemma top_indicies_with_rows (argsort_row : list np.score -> list nat)
  (m : list (list np.score)) :
  top_indicies_with argsort_row m = map (top_k_with argsort_row) m.
Proof.
  unfold top_indicies_with, np.flip, np.slice_last.
  rewrite !map_map. reflexivity.
Qed.

Lemma argsort_row_sorts : sorts np.argsort_row.
Proof. intros row. apply argsort_row_ascending. Qed.

Section AnySort.

Variable argsort_row : list np.score -> list nat.
Hypothesis argsort_sorts : sorts argsort_row.

Lemma any_sort_NoDup (row : list np.score) : NoDup (argsort_row row).
Proof.
  destruct (argsort_sorts row) as [Hperm _].
  eapply Permutation_NoDup; [symmetry; exact Hperm|apply seq_NoDup].
Qed.

Lemma any_sort_length (row : list np.score) :
  length (argsort_row row) = length row.
Proof.
  destruct (argsort_sorts row) as [Hperm _].
  rewrite (Permutation_length Hperm). apply length_seq.
Qed.

Lemma top_k_with_NoDup (row : list np.score) :
  NoDup (top_k_with argsort_row row).
Proof.
  unfold top_k_with, np.take_last.
  apply NoDup_rev, NoDup_skipn, any_sort_NoDup.
Qed.

Lemma top_k_with_length (row : list np.score) :
  length (top_k_with argsort_row row) = Nat.min _TOP_K (length row).
Proof.
  unfold top_k_with, np.take_last.
  rewrite length_rev, length_skipn, any_sort_length. lia.
Qed.

(** The hit positions, row by row. *)
Lemma argwhere_from_with (i : nat) (m : list (list np.score)) :
  let hits :=
    np.argwhere_from i (np.equal (map (top_k_with argsort_row) m) 0) in
  INR (length hits) = total (row_hit_with argsort_row) m /\
  np.sum (gains hits) = total (row_gain_with argsort_row) m.
Proof.
  revert i. induction m as [|row m IH]; intros i; simpl.
  - split; reflexivity.
  - destruct (IH (S i)) as (IH1 & IH2).
    rewrite argwhere_row_find by apply top_k_with_NoDup.
    unfold total in *. simpl.
    unfold row_hit_with at 1, row_gain_with at 1, hit_rank_with.
    destruct (find_index 0 (top_k_with argsort_row row)) as [r|]; simpl.
    + split.
      * rewrite <- IH1.
        destruct (length (np.argwhere_from (S i)
                            (np.equal (map (top_k_with argsort_row) m) 0)));
          simpl; lra.
      * now rewrite IH2.
    + split; [lra|unfold np.sum in *; lra].
Qed.

(** On a score matrix the evaluator returns, whatever the sort, and its
    two sums run over the rows. *)
Lemma evaluate_model_with_score_matrix (n w : nat)
  (m : list (list np.score)) (prediction_batches : list (list np.score))
  (global_step : Z) :
  score_matrix n w m -> delivers prediction_batches m ->
  evaluate_model_with argsort_row prediction_batches (Z.of_nat n)
    global_step
  = Return {| HR := (total (row_hit_with argsort_row) m / INR n)%R;
              NDCG := (total (row_gain_with argsort_row) m / INR n)%R;
              GLOBAL_STEP := global_step |}.
Proof.
  intros Hm Hd. pose proof (delivers_nonempty Hm Hd) as Hne.
  destruct Hm as (Hn & _ & Hm). unfold evaluate_model_with.
  rewrite (concatenate_delivers Hne Hd). simpl.
  rewrite (reshape_matrix Hn Hm). simpl.
  rewrite top_indicies_with_rows.
  destruct (argwhere_from_with 0 m) as (H1 & H2).
  unfold np.argwhere. simpl in H1, H2. rewrite H1, H2.
  now rewrite <- INR_IZR_INZ.
Qed.

(** In an ascending order of a row, column 0 is followed by every column
    that scores strictly more, and only by columns that score at least as
    much. *)
Lemma any_order_after_true_item (v0 : np.score) (rest : list np.score)
  (A B : list nat) :
  argsort_row (v0 :: rest) = A ++ 0%nat :: B ->
  (outscoring (v0 :: rest) <= length B <= rank0 (v0 :: rest))%nat.
Proof.
  intros Hsplit. set (row := v0 :: rest) in *.
  destruct (argsort_sorts row) as [Hperm Hsorted].
  rewrite Hsplit in Hperm, Hsorted.
  set (ge := fun c => Qle_bool v0 (score_at row c)).
  set (gt := fun c => np.ltb v0 (score_at row c)).
  assert (HB : forall c, In c B -> ge c = true).
  { intros c Hc. unfold ge. apply Qle_bool_iff.
    change v0 with (score_at row 0).
    apply (@StronglySorted_precedes _ (A ++ 0%nat :: B) 0%nat c Hsorted).
    apply in_split in Hc. destruct Hc as (B1 & B2 & ->).
    exists A, B1, B2. reflexivity. }
  assert (HA : forall c, In c A -> gt c = false).
  { intros c Hc. unfold gt. apply ltb_ge.
    change v0 with (score_at row 0).
    apply (@StronglySorted_precedes _ (A ++ 0%nat :: B) c 0%nat Hsorted).
    apply in_split in Hc. destruct Hc as (A1 & A2 & ->).
    exists A1, A2, B. now rewrite <- app_assoc. }
  assert (Hrest : Permutation (A ++ B) (seq 1 (length rest))).
  { symmetry. apply Permutation_cons_app_inv with (a := 0%nat).
    symmetry. exact Hperm. }
  assert (Hcount : forall h : np.score -> bool,
             length (filter (fun c => h (score_at row c)) (A ++ B))
             = length (filter h rest)).
  { intros h. rewrite (filter_length_perm _ Hrest).
    etransitivity; [|exact (filter_columns h rest 1)].
    f_equal. apply filter_ext_in. intros c Hc. apply in_seq in Hc.
    unfold score_at. destruct c as [|c]; [lia|].
    simpl. now rewrite Nat.sub_0_r. }
  assert (Hgt : length (filter gt (A ++ B))
                = length (filter (fun v => np.ltb v0 v) rest))
    by exact (Hcount (fun v => np.ltb v0 v)).
  rewrite filter_app, (filter_none gt A HA) in Hgt. simpl in Hgt.
  assert (Hge : length (filter ge (A ++ B))
                = length (filter (fun v => Qle_bool v0 v) rest))
    by exact (Hcount (fun v => Qle_bool v0 v)).
  rewrite filter_app, length_app, (filter_all ge B HB) in Hge.
  pose proof (filter_length_le gt B) as Hle.
  change (outscoring row)
    with (length (filter (fun v => np.ltb v0 v) rest)).
  change (rank0 row)
    with (length (filter (fun v => Qle_bool v0 v) rest)).
  unfold np.score in *. lia.
Qed.

(** The rank of the true item in the top-K ranking, between the number of
    columns that score strictly more and the number that score at least
    as much. *)
Lemma hit_rank_with_bounds (row : list np.score) :
  row <> [] ->
  match hit_rank_with argsort_row row with
  | Some r => (outscoring row <= r <= rank0 row)%nat /\ (r < _TOP_K)%nat
  | None => (_TOP_K <= rank0 row)%nat
  end.
Proof.
  destruct row as [|v0 rest]; [contradiction|]. intros _.
  set (row := v0 :: rest).
  destruct (argsort_sorts row) as [Hperm _].
  assert (H0 : In 0%nat (argsort_row row)).
  { apply (Permutation_in _ (Permutation_sym Hperm)). apply in_seq.
    simpl. lia. }
  apply in_split in H0. destruct H0 as (A & B & Hsplit).
  pose proof (any_order_after_true_item _ _ Hsplit) as Hbounds.
  pose proof (any_sort_NoDup row) as Hnd.
  unfold hit_rank_with, top_k_with. rewrite Hsplit in *.
  rewrite find_index_take_last by exact Hnd.
  fold row in Hbounds.
  destruct (Nat.ltb_spec (length B) _TOP_K); lia.
Qed.

(** When the true item ties with no other column, every sort ranks it
    where the stable one does. *)
Lemma hit_rank_with_untied (row : list np.score) :
  true_item_untied row -> hit_rank_with argsort_row row = hit_rank row.
Proof.
  intros Hu. unfold hit_rank_with, top_k_with.
  apply untied_hit_rank_any_order; [exact Hu|apply argsort_sorts].
Qed.

Lemma evaluate_model_with_related
  (P : list np.score -> list np.score -> Prop) (n w : nat)
  (m m' : list (list np.score))
  (prediction_batches prediction_batches' : list (list np.score))
  (global_step : Z) :
  (forall row row', P row row' -> length row' = length row) ->
  (forall row row', P row row' ->
     hit_rank_with argsort_row row' = hit_rank_with argsort_row row) ->
  score_matrix n w m -> Forall2 P m m' ->
  delivers prediction_batches m -> delivers prediction_batches' m' ->
  evaluate_model_with argsort_row prediction_batches' (Z.of_nat n)
    global_step
  = evaluate_model_with argsort_row prediction_batches (Z.of_nat n)
      global_step.
Proof.
  intros Hlen Hrank Hm HP Hd Hd'.
  assert (Hm' : score_matrix n w m').
  { destruct Hm as (Hn & Hw & Hm). repeat split; try assumption;
      apply (Forall2_matrix Hlen HP Hm). }
  rewrite (evaluate_model_with_score_matrix global_step Hm Hd).
  rewrite (evaluate_model_with_score_matrix global_step Hm' Hd').
  rewrite (@total_Forall2 (row_hit_with argsort_row) m m'),
    (@total_Forall2 (row_gain_with argsort_row) m m');
    [reflexivity| |];
    (eapply Forall2_impl; [|exact HP]); intros row row' H;
    unfold row_gain_with, row_hit_with; now rewrite (Hrank _ _ H).
Qed.

End AnySort.

(** ** The order of a ranking, for any sort *)

(** C2, as the code has it. Whatever ascending order the sort returns, the
    top-K ranking of a row lists [min _TOP_K W] distinct columns of the
    row; a column listed earlier scores at least as much as one listed
    later; and every column left out scores no more than any listed one.
    Nothing is said of the order of equal scores. *)
Theorem top_k_order_any_sort (argsort_row : list np.score -> list nat)
  (row : list np.score) :
  sorts argsort_row ->
  length (top_k_with argsort_row row) = Nat.min _TOP_K (length row) /\
  NoDup (top_k_with argsort_row row) /\
  (forall c, In c (top_k_with argsort_row row) -> (c < length row)%nat) /\
  (forall c1 c2,
     precedes (top_k_with argsort_row row) c1 c2 ->
     (score_at row c2 <= score_at row c1)%Q) /\
  (forall c t,
     (c < length row)%nat -> ~ In c (top_k_with argsort_row row) ->
     In t (top_k_with argsort_row row) ->
     (score_at row c <= score_at row t)%Q).
Proof.
  intros Hsorts. destruct (Hsorts row) as [Hp Hs].
  split; [now apply top_k_with_length|].
  split; [now apply top_k_with_NoDup|].
  unfold top_k_with, np.take_last.
  set (asc := argsort_row row) in *.
  set (k := (length asc - _TOP_K)%nat).
  repeat split.
  - intros c Hc. apply in_rev in Hc.
    assert (Hin : In c asc).
    { rewrite <- (firstn_skipn k asc). apply in_or_app. now right. }
    apply (Permutation_in _ Hp) in Hin. apply in_seq in Hin. lia.
  - intros c1 c2 H. apply precedes_rev, precedes_skipn in H.
    exact (StronglySorted_precedes Hs H).
  - intros c t Hc Hout Ht. apply in_rev in Ht.
    assert (Hin : In c asc).
    { apply (Permutation_in _ (Permutation_sym Hp)). apply in_seq. lia. }
    rewrite <- (firstn_skipn k asc) in Hin. apply in_app_or in Hin.
    destruct Hin as [Hin|Hin].
    + exact (StronglySorted_precedes Hs (precedes_across k asc c t Hin Ht)).
    + exfalso. apply Hout. now apply -> in_rev.
Qed.

Lemma top_k_order_any_sort_witness :
  length (top_k_with np.argsort_row [1#2; 1#2]%Q)
  = Nat.min _TOP_K (length [1#2; 1#2]%Q) /\
  NoDup (top_k_with np.argsort_row [1#2; 1#2]%Q) /\
  (forall c, In c (top_k_with np.argsort_row [1#2; 1#2]%Q) ->
             (c < length [1#2; 1#2]%Q)%nat) /\
  (forall c1 c2,
     precedes (top_k_with np.argsort_row [1#2; 1#2]%Q) c1 c2 ->
     (score_at [1#2; 1#2] c2 <= score_at [1#2; 1#2] c1)%Q) /\
  (forall c t,
     (c < length [1#2; 1#2]%Q)%nat ->
     ~ In c (top_k_with np.argsort_row [1#2; 1#2]%Q) ->
     In t (top_k_with np.argsort_row [1#2; 1#2]%Q) ->
     (score_at [1#2; 1#2] c <= score_at [1#2; 1#2] t)%Q).
Proof.
  apply (@top_k_order_any_sort np.argsort_row [1#2; 1#2]%Q).
  intros row. apply argsort_row_ascending.
Defined.

(** ** The order of the negatives *)

(** With NumPy's default sort the order of the negatives matters when they
    tie with the true item: in [tied_row_A] the true item is hit at rank
    9, and in [tied_row_B], which has the negatives of columns 1 and 8
    exchanged, it is not hit. *)
Lemma negatives_order_matters :
  negatives_permuted tied_row_A tied_row_B /\
  hit_indicies_with npysort.aquicksort [tied_row_A] 1
  = Return [(0, 9)]%nat /\
  hit_indicies_with npysort.aquicksort [tied_row_B] 1 = Return [] /\
  evaluate_model_with npysort.aquicksort [tied_row_B] 1 7
  <> evaluate_model_with npysort.aquicksort [tied_row_A] 1 7.
Proof.
  assert (HA : hit_indicies_with npysort.aquicksort [tied_row_A] 1
               = Return [(0, 9)]%nat) by (vm_compute; reflexivity).
  assert (HB : hit_indicies_with npysort.aquicksort [tied_row_B] 1
               = Return []) by (vm_compute; reflexivity).
  split; [|split; [exact HA|split; [exact HB|]]].
  - split; [reflexivity|].
    exact (Permutation_sym
             (Permutation_middle [5; 5; 5; 5; 5; 5; 5]%Q
                [5; 5; 5; 5; 5; 5; 5; 5; 9]%Q 1%Q)).
  - rewrite !evaluate_model_with_hit_indicies, HA, HB. simpl bind.
    intros H. injection H as Hhr _. simpl in Hhr. lra.
Qed.

Lemma untied_permuted (row row' : list np.score) :
  negatives_permuted row row' -> true_item_untied row ->
  true_item_untied row'.
Proof.
  intros [Hhd Htl] Hu. destruct row as [|v0 rest], row' as [|v0' rest'];
    simpl in *; try discriminate; [exact I|].
  injection Hhd as <-. exact (Permutation_Forall Htl Hu).
Qed.

(** C7, as the code has it. Reordering the columns after column 0 within
    rows where no other column scores the same as column 0, each column
    keeping its score, leaves the result of the evaluator as it was,
    whatever ascending order the sort returns. *)
Theorem evaluate_model_untied_negatives_order
  (argsort_row : list np.score -> list nat) (n w : nat)
  (m m' : list (list np.score))
  (prediction_batches prediction_batches' : list (list np.score))
  (global_step : Z) :
  sorts argsort_row -> score_matrix n w m ->
  Forall2 (fun row row' =>
             row' = row \/
             (negatives_permuted row row' /\ true_item_untied row)) m m' ->
  delivers prediction_batches m -> delivers prediction_batches' m' ->
  evaluate_model_with argsort_row prediction_batches' (Z.of_nat n)
    global_step
  = evaluate_model_with argsort_row prediction_batches (Z.of_nat n)
      global_step.
Proof.
  intros Hsorts Hm HP Hd Hd'.
  apply (@evaluate_model_with_related argsort_row Hsorts
           (fun row row' =>
              row' = row \/
              (negatives_permuted row row' /\ true_item_untied row))
           n w m m'); try assumption.
  - intros row row' [->|[Hperm _]]; [reflexivity|].
    now apply length_permuted.
  - intros row row' [->|[Hperm Hu]]; [reflexivity|].
    rewrite (hit_rank_with_untied Hsorts _ Hu).
    rewrite (hit_rank_with_untied Hsorts _ (untied_permuted Hperm Hu)).
    now apply hit_rank_permuted.
Qed.

Lemma evaluate_model_untied_negatives_order_witness :
  evaluate_model_with np.argsort_row
    [[9#10; 1#20; 1#10]; [1#10; 9#10; 1#20]]%Q 2 7
  = evaluate_model_with np.argsort_row two_users 2 7.
Proof.
  apply (@evaluate_model_untied_negatives_order np.argsort_row 2 3
           two_users [[9#10; 1#20; 1#10]; [1#10; 9#10; 1#20]]%Q
           two_users [[9#10; 1#20; 1#10]; [1#10; 9#10; 1#20]]%Q 7).
  - intros row. apply argsort_row_ascending.
  - repeat split; try lia. repeat constructor.
  - constructor; [|constructor; [|constructor]].
    + right. split; [split; [reflexivity|apply perm_swap]|].
      repeat constructor; intros H; vm_compute in H; discriminate H.
    + left. reflexivity.
  - reflexivity.
  - reflexivity.
Defined.

(** ** The rank of the true item, for any sort *)

(** X3. Whatever ascending order the sort returns, the true item of a row
    is hit at a rank between the number of negatives that score strictly
    more and the number that score at least as much, and below [_TOP_K];
    when it is not hit, at least [_TOP_K] negatives score at least as
    much. Where among the negatives that tie with it the true item lands
    is up to the sort. *)
Theorem hit_rank_bounds_any_sort (argsort_row : list np.score -> list nat)
  (row : list np.score) :
  sorts argsort_row -> row <> [] ->
  match hit_rank_with argsort_row row with
  | Some r => (outscoring row <= r <= rank0 row)%nat /\ (r < _TOP_K)%nat
  | None => (_TOP_K <= rank0 row)%nat
  end.
Proof.
  intros Hsorts Hne. now apply hit_rank_with_bounds.
Qed.

Lemma hit_rank_bounds_any_sort_witness :
  match hit_rank_with np.argsort_row [1#10; 9#10; 1#10; 1#20]%Q with
  | Some r =>
      (outscoring [1#10; 9#10; 1#10; 1#20]%Q <= r
       <= rank0 [1#10; 9#10; 1#10; 1#20]%Q)%nat /\ (r < _TOP_K)%nat
  | None => (_TOP_K <= rank0 [1#10; 9#10; 1#10; 1#20]%Q)%nat
  end.
Proof.
  apply (@hit_rank_bounds_any_sort np.argsort_row
           [1#10; 9#10; 1#10; 1#20]%Q).
  - intros row. apply argsort_row_ascending.
  - discriminate.
Defined.

(** X4. When in every row at least [_TOP_K] negatives score strictly more
    than the true item, the evaluator returns Hit Ratio 0 and NDCG 0,
    whatever ascending order the sort returns. *)
Theorem evaluate_model_with_no_hit
  (argsort_row : list np.score -> list nat) (n w : nat)
  (m : list (list np.score)) (prediction_batches : list (list np.score))
  (global_step : Z) :
  sorts argsort_row -> score_matrix n w m ->
  delivers prediction_batches m ->
  Forall (fun row => (_TOP_K <= outscoring row)%nat) m ->
  exists res,
    evaluate_model_with argsort_row prediction_batches (Z.of_nat n)
      global_step = Return res /\
    HR res = 0%R /\ NDCG res = 0%R.
Proof.
  intros Hsorts Hm Hd Hout. eexists. split.
  - apply (evaluate_model_with_score_matrix Hsorts global_step Hm Hd).
  - pose proof (score_matrix_rows Hm) as Hne.
    assert (Hmiss : Forall (fun row => hit_rank_with argsort_row row = None)
                      m).
    { rewrite Forall_forall in *. intros row Hrow.
      pose proof (hit_rank_with_bounds Hsorts (Hne row Hrow)) as Hb.
      specialize (Hout row Hrow).
      destruct (hit_rank_with argsort_row row) as [r|]; [lia|reflexivity]. }
    cbn [HR NDCG]. split.
    + rewrite (@total_ext_in (row_hit_with argsort_row) (fun _ => 0%R)).
      * rewrite total_const. unfold Rdiv. now rewrite Rmult_0_r, Rmult_0_l.
      * eapply Forall_impl; [|exact Hmiss]. intros row H.
        unfold row_hit_with. now rewrite H.
    + rewrite (@total_ext_in (row_gain_with argsort_row) (fun _ => 0%R)).
      * rewrite total_const. unfold Rdiv. now rewrite Rmult_0_r, Rmult_0_l.
      * eapply Forall_impl; [|exact Hmiss]. intros row H.
        unfold row_gain_with. now rewrite H.
Qed.

Lemma evaluate_model_with_no_hit_witness :
  exists res,
    evaluate_model_with np.argsort_row
      [[1; 2; 3; 4; 5; 6; 7; 8; 9; 10; 11]]%Q 1 7 = Return res /\
    HR res = 0%R /\ NDCG res = 0%R.
Proof.
  apply (@evaluate_model_with_no_hit np.argsort_row 1 11
           [[1; 2; 3; 4; 5; 6; 7; 8; 9; 10; 11]]%Q
           [[1; 2; 3; 4; 5; 6; 7; 8; 9; 10; 11]]%Q 7).
  - intros row. apply argsort_row_ascending.
  - repeat split; try lia. repeat constructor.
  - reflexivity.
  - repeat constructor.
Defined.

(** X8. The order of the users does not matter to the Hit Ratio:
    permuting the rows of the score matrix leaves it as it was, whatever
    the sort. *)
Theorem evaluate_model_with_user_order
  (argsort_row : list np.score -> list nat) (n w : nat)
  (m m' : list (list np.score))
  (prediction_batches prediction_batches' : list (list np.score))
  (global_step : Z) :
  sorts argsort_row -> score_matrix n w m -> Permutation m m' ->
  delivers prediction_batches m -> delivers prediction_batches' m' ->
  exists res res',
    evaluate_model_with argsort_row prediction_batches (Z.of_nat n)
      global_step = Return res /\
    evaluate_model_with argsort_row prediction_batches' (Z.of_nat n)
      global_step = Return res' /\
    HR res' = HR res.
Proof.
  intros Hsorts Hm Hp Hd Hd'.
  assert (Hm' : score_matrix n w m').
  { destruct Hm as (Hn & Hw & Hlen & Hrows). repeat split; try assumption.
    - now rewrite <- (Permutation_length Hp).
    - exact (Permutation_Forall Hp Hrows). }
  eexists. eexists.
  split; [apply (evaluate_model_with_score_matrix Hsorts global_step Hm Hd)|].
  split;
    [apply (evaluate_model_with_score_matrix Hsorts global_step Hm' Hd')|].
  cbn [HR]. now rewrite (total_perm (row_hit_with argsort_row) Hp).
Qed.

Lemma evaluate_model_with_user_order_witness :
  exists res res',
    evaluate_model_with np.argsort_row two_users 2 7 = Return res /\
    evaluate_model_with np.argsort_row
      [[1#10; 9#10; 1#20]; [9#10; 1#10; 1#20]]%Q 2 7 = Return res' /\
    HR res' = HR res.
Proof.
  apply (@evaluate_model_with_user_order np.argsort_row 2 3 two_users
           [[1#10; 9#10; 1#20]; [9#10; 1#10; 1#20]]%Q two_users
           [[1#10; 9#10; 1#20]; [9#10; 1#10; 1#20]]%Q 7).
  - intros row. apply argsort_row_ascending.
  - repeat split; try lia. repeat constructor.
  - apply perm_swap.
  - reflexivity.
  - reflexivity.
Defined.

Lemma untied_added (row row' : list np.score) :
  row <> [] -> negatives_added row row' -> true_item_untied row' ->
  true_item_untied row.
Proof.
  intros Hne [extra ->] Hu. destruct row as [|v0 rest]; [contradiction|].
  simpl in *. apply Forall_app in Hu. apply Hu.
Qed.

(** X10. More negatives never help: when further negative columns are
    appended to the rows of a score matrix and none of the negatives
    scores the same as the true item of its row, neither the Hit Ratio
    nor the NDCG goes up, whatever ascending order the sort returns. *)
Theorem evaluate_model_with_negatives_added
  (argsort_row : list np.score -> list nat) (n w w' : nat)
  (m m' : list (list np.score))
  (prediction_batches prediction_batches' : list (list np.score))
  (global_step : Z) :
  sorts argsort_row -> score_matrix n w m -> score_matrix n w' m' ->
  Forall2 (fun row row' =>
             negatives_added row row' /\ true_item_untied row') m m' ->
  delivers prediction_batches m -> delivers prediction_batches' m' ->
  exists res res',
    evaluate_model_with argsort_row prediction_batches (Z.of_nat n)
      global_step = Return res /\
    evaluate_model_with argsort_row prediction_batches' (Z.of_nat n)
      global_step = Return res' /\
    (HR res' <= HR res)%R /\ (NDCG res' <= NDCG res)%R.
Proof.
  intros Hsorts Hm Hm' Hadded Hd Hd'. eexists. eexists.
  split; [apply (evaluate_model_with_score_matrix Hsorts global_step Hm Hd)|].
  split;
    [apply (evaluate_model_with_score_matrix Hsorts global_step Hm' Hd')|].
  cbn [HR NDCG]. pose proof (score_matrix_rows Hm) as Hne.
  pose proof (score_matrix_rows Hm') as Hne'.
  assert (Hrows : Forall2 (fun row' row =>
                    (row_hit_with argsort_row row'
                     <= row_hit_with argsort_row row)%R /\
                    (row_gain_with argsort_row row'
                     <= row_gain_with argsort_row row)%R) m' m).
  { clear Hm Hm' Hd Hd'.
    induction Hadded as [|row row' m m' [Hrow Hu'] _ IH]; [constructor|].
    inversion Hne; inversion Hne'; subst.
    constructor; [|now apply IH].
    pose proof (untied_added H1 Hrow Hu') as Hu.
    unfold row_hit_with, row_gain_with.
    rewrite (hit_rank_with_untied Hsorts _ Hu).
    rewrite (hit_rank_with_untied Hsorts _ Hu').
    apply (@row_outranked_less row' row); try assumption.
    now apply rank0_added. }
  destruct Hm as (Hn & _).
  assert (Hpos : (0 < INR n)%R) by (apply lt_0_INR; lia).
  split; apply div_le; try exact Hpos; apply total_Forall2_le;
    (eapply Forall2_impl; [|exact Hrows]); intros row' row [H1 H2];
    assumption.
Qed.

Lemma evaluate_model_with_negatives_added_witness :
  exists res res',
    evaluate_model_with np.argsort_row two_users 2 7 = Return res /\
    evaluate_model_with np.argsort_row
      [[9#10; 1#10; 1#20; 1]; [1#10; 9#10; 1#20; 1]]%Q 2 7 = Return res' /\
    (HR res' <= HR res)%R /\ (NDCG res' <= NDCG res)%R.
Proof.
  apply (@evaluate_model_with_negatives_added np.argsort_row 2 3 4
           two_users [[9#10; 1#10; 1#20; 1]; [1#10; 9#10; 1#20; 1]]%Q
           two_users [[9#10; 1#10; 1#20; 1]; [1#10; 9#10; 1#20; 1]]%Q 7).
  - intros row. apply argsort_row_ascending.
  - repeat split; try lia. repeat constructor.
  - repeat split; try lia. repeat constructor.
  - repeat constructor; try (exists [1%Q]; reflexivity);
      intros H; vm_compute in H; discriminate H.
  - reflexivity.
  - reflexivity.
Defined.

(** ** The gains that are summed *)

(** X5. Every gain the evaluator sums lies between the gain of the last
    rank of the top-K and 1, the gain of the first. *)
Theorem gains_range (prediction_batches : list (list np.score))
  (num_users : Z) (hits : list (nat * nat)) :
  hit_indicies_of prediction_batches num_users = Return hits ->
  Forall (fun g => (ln 2 / ln (INR (_TOP_K - 1) + 2) <= g <= 1)%R)
    (gains hits).
Proof.
  intros H. destruct (hit_indicies_of_Return _ _ H) as (w & m & _ & _ & ->).
  destruct (argwhere_from_shape m 0) as [_ Hf]. simpl in Hf.
  unfold gains. rewrite Forall_map.
  eapply Forall_impl; [|exact Hf]. cbv beta. intros hit [_ Hrank].
  unfold np.log. split.
  - apply gain_antitone. lia.
  - apply gain_bounds.
Qed.

Lemma gains_range_witness :
  Forall (fun g => (ln 2 / ln (INR (_TOP_K - 1) + 2) <= g <= 1)%R)
    (gains [(0, 0); (1, 1)]%nat).
Proof.
  apply (@gains_range [concat two_users] 2).
  reflexivity.
Defined.
